(** * Document pack cache and retrieval engine

    A shallow embedding of [rag/docpack_manager.py], [rag/retriever.py] and
    [rag/ingest.py], with the properties of the pack key, the ingestion
    candidate list, the manifest lifecycle and the two-stage retrieval.

    Conventions of the embedding.
    - A Python [str] is a [string]; the development covers ASCII text, where
      [str.encode()] (UTF-8) is the identity on bytes and the code-point
      order used by [sorted] is the byte order of [String.compare].
    - A Python [int] is a [Z]; slices and subscripts with a negative bound
      are written out.
    - The module-level dictionaries [_packs], [_ingest_log] and
      [_pack_indexes] are the fields of one [World] record of [gmap]s, which
      every operation threads through.
    - The collaborators the code calls into (HTTP client, HTML parser, URL
      library, embedding model, FAISS index search, cross-encoder) are the
      fields of a [Collab] record; each call the code makes is appended to
      the [trace] of the world. *)

From Stdlib Require Import ZArith List Ascii String Bool Lia QArith Lqa.
From Stdlib Require Import Sorting.Permutation Sorting.Sorted.
From stdpp Require Import base gmap strings list fin_maps.
Import ListNotations.

Local Open Scope string_scope.
Local Open Scope Z_scope.

(** ** Python primitives used by the sources *)

Module Py.

(** [x or d] on an optional string: [None] and [""] are falsy. *)
Definition or_str (x : option string) (d : string) : string :=
  match x with
  | Some s => if String.eqb s "" then d else s
  | None => d
  end.

(** [l[:k]]: a negative bound counts from the end. *)
Definition slice_to {A} (k : Z) (l : list A) : list A :=
  if 0 <=? k then firstn (Z.to_nat k) l
  else firstn (length l - Z.to_nat (- k)) l.

(** [l[-n:]] for a positive literal [n]: the last [n] elements. *)
Definition last_n {A} (n : nat) (l : list A) : list A :=
  skipn (length l - n) l.

(** [l[i]]: [None] stands for [IndexError]. *)
Definition index {A} (l : list A) (i : Z) : option A :=
  let n := Z.of_nat (length l) in
  if (0 <=? i) && (i <? n) then nth_error l (Z.to_nat i)
  else if (- n <=? i) && (i <? 0) then nth_error l (Z.to_nat (n + i))
  else None.

(** [sep.join(l)]. *)
Definition join (sep : string) (l : list string) : string :=
  String.concat sep l.

(** [list.sort] compares keys with [<] only and is stable; on keys under
    a strict weak order every stable sort returns the same list, given
    here by insertion.  [ins] places an element that came earlier in the
    input before every element it is not greater than. *)
Section Sorted.
Context {A K : Type} (lt : K -> K -> bool) (key : A -> K).

Fixpoint ins (x : A) (l : list A) : list A :=
  match l with
  | [] => [x]
  | y :: ys => if lt (key y) (key x) then y :: ins x ys else x :: y :: ys
  end.

Definition sort_stable (l : list A) : list A := foldr ins [] l.

(** [sorted(l, key=key, reverse=r)]: with [reverse] the list is
    reversed, sorted and reversed again, which keeps elements with
    equal keys in their input order. *)
Definition sorted (reverse : bool) (l : list A) : list A :=
  if reverse then rev (sort_stable (rev l)) else sort_stable l.
End Sorted.

(** [list(dict.fromkeys(l))] and the [seen]/[out] loops: first
    occurrences, in order. *)
Fixpoint dedup_from (seen : list string) (l : list string) : list string :=
  match l with
  | [] => []
  | u :: us =>
      if existsb (String.eqb u) seen then dedup_from seen us
      else u :: dedup_from (u :: seen) us
  end.

Definition dedup (l : list string) : list string := dedup_from [] l.

(** [str.lower()] on ASCII text. *)
Definition lower_ascii (c : ascii) : ascii :=
  let n := N_of_ascii c in
  if ((65 <=? n) && (n <=? 90))%N then ascii_of_N (n + 32) else c.

Fixpoint lower (s : string) : string :=
  match s with
  | EmptyString => EmptyString
  | String c r => String (lower_ascii c) (lower r)
  end.

(** [str.isspace] on one ASCII character. *)
Definition is_space (c : ascii) : bool :=
  let n := N_of_ascii c in
  (((9 <=? n) && (n <=? 13)) || ((28 <=? n) && (n <=? 32)))%N.

(** Truth value of [s.strip()]: some character is not white space. *)
Fixpoint strip_truthy (s : string) : bool :=
  match s with
  | EmptyString => false
  | String c r => negb (is_space c) || strip_truthy r
  end.

(** [sub in s]. *)
Fixpoint contains (sub s : string) : bool :=
  String.prefix sub s ||
  match s with
  | EmptyString => false
  | String _ r => contains sub r
  end.

End Py.

(** ** SHA-256 ([hashlib.sha256(...).hexdigest()]), FIPS 180-4 *)

Module Sha256.

Definition w32 (x : Z) : Z := x mod 2 ^ 32.
Definition add32 (x y : Z) : Z := w32 (x + y).
Definition rotr (n x : Z) : Z :=
  Z.lor (Z.shiftr x n) (w32 (Z.shiftl x (32 - n))).
Definition not32 (x : Z) : Z := Z.lxor x 0xffffffff.

Definition Ch (x y z : Z) : Z :=
  Z.lxor (Z.land x y) (Z.land (not32 x) z).
Definition Maj (x y z : Z) : Z :=
  Z.lxor (Z.lxor (Z.land x y) (Z.land x z)) (Z.land y z).
Definition Sigma0 (x : Z) : Z :=
  Z.lxor (Z.lxor (rotr 2 x) (rotr 13 x)) (rotr 22 x).
Definition Sigma1 (x : Z) : Z :=
  Z.lxor (Z.lxor (rotr 6 x) (rotr 11 x)) (rotr 25 x).
Definition sigma0 (x : Z) : Z :=
  Z.lxor (Z.lxor (rotr 7 x) (rotr 18 x)) (Z.shiftr x 3).
Definition sigma1 (x : Z) : Z :=
  Z.lxor (Z.lxor (rotr 17 x) (rotr 19 x)) (Z.shiftr x 10).

(** The round constants are the first 32 bits of the fractional parts of
    the cube roots of the first 64 primes, the initial hash value those of
    the square roots of the first 8 primes. *)
Definition is_prime (n : nat) : bool :=
  forallb (fun d => negb (Nat.eqb (n mod d) 0)) (seq 2 (n - 2)).

Definition primes64 : list Z :=
  map Z.of_nat (List.filter is_prime (seq 2 310)).

(** Integer cube root, one bit at a time from bit [b - 1] down. *)
Fixpoint cbrt_bits (b : nat) (x r : Z) : Z :=
  match b with
  | O => r
  | S b' =>
      let r' := r + 2 ^ Z.of_nat b' in
      cbrt_bits b' x (if r' * r' * r' <=? x then r' else r)
  end.

Definition K : list Z :=
  Eval vm_compute in
    map (fun p => w32 (cbrt_bits 36 (p * 2 ^ 96) 0)) primes64.

Definition H0 : list Z :=
  Eval vm_compute in
    map (fun p => w32 (Z.sqrt (p * 2 ^ 64))) (firstn 8 primes64).

(** Padding: a [0x80] byte, zeros up to 56 modulo 64, then the bit length
    on 8 bytes, big-endian. *)
Definition be_bytes (n : nat) (x : Z) : list Z :=
  map (fun i => Z.shiftr x (8 * Z.of_nat (n - 1 - i)) mod 256) (seq 0 n).

Definition pad (msg : list Z) : list Z :=
  let len := Z.of_nat (length msg) in
  let zeros := Z.to_nat ((55 - len) mod 64) in
  msg ++ [0x80] ++ repeat 0 zeros ++ be_bytes 8 (8 * len).

Fixpoint be_words (fuel : nat) (bs : list Z) : list Z :=
  match fuel, bs with
  | S f, b0 :: b1 :: b2 :: b3 :: r =>
      (b0 * 2 ^ 24 + b1 * 2 ^ 16 + b2 * 2 ^ 8 + b3) :: be_words f r
  | _, _ => []
  end.

(** Message schedule, most recent word first. *)
Fixpoint schedule (n : nat) (ws : list Z) : list Z :=
  match n with
  | O => ws
  | S m =>
      let w := add32 (add32 (sigma1 (nth 1 ws 0)) (nth 6 ws 0))
                     (add32 (sigma0 (nth 14 ws 0)) (nth 15 ws 0)) in
      schedule m (w :: ws)
  end.

Definition round (st : list Z) (kw : Z * Z) : list Z :=
  match st with
  | [a; b; c; d; e; f; g; h] =>
      let t1 := add32 (add32 (add32 h (Sigma1 e)) (add32 (Ch e f g) (fst kw)))
                      (snd kw) in
      let t2 := add32 (Sigma0 a) (Maj a b c) in
      [add32 t1 t2; a; b; c; add32 d t1; e; f; g]
  | _ => st
  end.

Definition compress (h : list Z) (block : list Z) : list Z :=
  let w := rev (schedule 48 (rev block)) in
  let st := fold_left round (combine K w) h in
  map (fun p => add32 (fst p) (snd p)) (combine h st).

Fixpoint blocks (fuel : nat) (ws : list Z) : list (list Z) :=
  match fuel, ws with
  | _, [] => []
  | O, _ => []
  | S f, _ => firstn 16 ws :: blocks f (skipn 16 ws)
  end.

Definition digest (msg : list Z) : list Z :=
  let p := pad msg in
  let ws := be_words (length p) p in
  fold_left compress (blocks (length ws) ws) H0.

Definition hex_digit (d : Z) : ascii :=
  if d <? 10 then ascii_of_N (Z.to_N (48 + d))
  else ascii_of_N (Z.to_N (87 + d)).

Definition hex_word (x : Z) : list ascii :=
  map (fun i => hex_digit (Z.shiftr x (4 * Z.of_nat (7 - i)) mod 16)) (seq 0 8).

(** [s.encode()] on ASCII text. *)
Definition encode (s : string) : list Z :=
  map (fun c => Z.of_N (N_of_ascii c)) (list_ascii_of_string s).

Definition hexdigest (s : string) : string :=
  string_of_list_ascii (concat (map hex_word (digest (encode s)))).

End Sha256.

(** ** Pack key ([docpack_manager._key_from_sources]) *)

(** The f-string hashed by [_key_from_sources]. *)
Definition key_raw (tech version : option string) (lang : string)
    (sources : list string) : string :=
  Py.or_str tech "generic" ++ "|" ++ Py.or_str version "latest" ++ "|"
    ++ lang ++ "|"
    ++ Py.join "," (Py.sorted String.ltb (fun s => s) false sources).

Definition _key_from_sources (tech version : option string) (lang : string)
    (sources : list string) : string :=
  let raw := key_raw tech version lang sources in
  Sha256.hexdigest raw.

(** ** URL library boundary ([urllib.parse]) *)

Module Url.

(** The two components of [urlparse]'s result that the sources read. *)
Record ParseResult := { scheme : string; netloc : string }.

Definition is_alpha (c : ascii) : bool :=
  let n := N_of_ascii c in
  (((65 <=? n) && (n <=? 90)) || ((97 <=? n) && (n <=? 122)))%N.

(** [scheme_chars]: letters, digits, [+], [-] and [.]. *)
Definition is_scheme_char (c : ascii) : bool :=
  let n := N_of_ascii c in
  (is_alpha c || ((48 <=? n) && (n <=? 57)) ||
   (n =? 43) || (n =? 45) || (n =? 46))%N.

(** [url.partition(":")]: the text before the first colon and the text
    after it. *)
Fixpoint split_colon (s : string) : option (string * string) :=
  match s with
  | EmptyString => None
  | String c r =>
      if Ascii.eqb c ":" then Some (EmptyString, r)
      else match split_colon r with
           | Some (pre, post) => Some (String c pre, post)
           | None => None
           end
  end.

Fixpoint all_chars (p : ascii -> bool) (s : string) : bool :=
  match s with
  | EmptyString => true
  | String c r => p c && all_chars p r
  end.

(** The authority ends at the first [/], [?] or [#]. *)
Fixpoint take_netloc (s : string) : string :=
  match s with
  | EmptyString => EmptyString
  | String c r =>
      if Ascii.eqb c "/" || Ascii.eqb c "?" || Ascii.eqb c "#"
      then EmptyString else String c (take_netloc r)
  end.

Definition netloc_of (rest : string) : string :=
  match rest with
  | String "/" (String "/" r) => take_netloc r
  | _ => EmptyString
  end.

(** [url.lstrip(_WHATWG_C0_CONTROL_OR_SPACE)]: the characters up to the
    space are dropped from the front. *)
Definition is_c0_or_space (c : ascii) : bool := (N_of_ascii c <=? 32)%N.

Fixpoint lstrip (s : string) : string :=
  match s with
  | EmptyString => EmptyString
  | String c r => if is_c0_or_space c then lstrip r else s
  end.

(** [_UNSAFE_URL_BYTES_TO_REMOVE]: tab, line feed and carriage return are
    deleted wherever they stand. *)
Definition is_unsafe (c : ascii) : bool :=
  let n := N_of_ascii c in ((n =? 9) || (n =? 10) || (n =? 13))%N.

Fixpoint remove_unsafe (s : string) : string :=
  match s with
  | EmptyString => EmptyString
  | String c r => if is_unsafe c then remove_unsafe r
                  else String c (remove_unsafe r)
  end.

Fixpoint has_char (c : ascii) (s : string) : bool :=
  match s with
  | EmptyString => false
  | String d r => Ascii.eqb c d || has_char c r
  end.

(** Model of the standard library's [urlparse] on its scheme and netloc,
    for ASCII text.  Leading control characters and spaces are stripped
    and tab, CR and LF deleted; a leading run of scheme characters that
    starts with a letter and ends at the first colon is the scheme
    (lower-cased); the authority follows a leading ["//"].  [None] is the
    [ValueError] raised on an authority with one square bracket and not
    the other.  The validation of the text between two brackets, which
    recent versions add, is not modelled. *)
Definition urlparse (url : string) : option ParseResult :=
  let url := remove_unsafe (lstrip url) in
  let '(sch, rest) :=
    match split_colon url with
    | Some (String c pre, post) =>
        if is_alpha c && all_chars is_scheme_char pre
        then (Py.lower (String c pre), post)
        else (EmptyString, url)
    | _ => (EmptyString, url)
    end in
  let nl := netloc_of rest in
  if xorb (has_char "[" nl) (has_char "]" nl) then None
  else Some {| scheme := sch; netloc := nl |}.

(** The characters of an absolute URL in normal form: letters, digits and
    [- . _ ~ / : %]. *)
Definition is_plain_char (c : ascii) : bool :=
  let n := N_of_ascii c in
  (is_alpha c || ((48 <=? n) && (n <=? 57)) ||
   (n =? 45) || (n =? 46) || (n =? 95) || (n =? 126) ||
   (n =? 47) || (n =? 58) || (n =? 37))%N.

(** An absolute http or https URL in normal form: the scheme in lower
    case, ["://"], an authority that is not empty, and plain characters
    only (no query, fragment, parameters, brackets or white space). *)
Definition plain_absolute (url : string) : bool :=
  all_chars is_plain_char url &&
  match split_colon url with
  | Some (sch, String "/" (String "/" (String c _))) =>
      (String.eqb sch "http" || String.eqb sch "https") &&
      negb (Ascii.eqb c "/")
  | _ => false
  end.

(** [urljoin] where this development evaluates it: on a reference that
    is an absolute http or https URL in normal form, which the standard
    library returns as it is whatever the base (a base that does not
    parse raises).  Other references are outside this model, which
    rejects them; this is the library's answer on a malformed authority
    such as [http://[bad/x], and a restriction of the model on relative
    references. *)
Definition urljoin_plain (base url : string) : option string :=
  match urlparse base with
  | None => None
  | Some _ => if plain_absolute url then Some url else None
  end.

End Url.

(** ** Data model *)

(** An indexed document: the dict with keys [title], [url], [text]. *)
Record Doc := { title : string; url : string; text : string }.

(** [docpack_manager.Manifest].  The [float] completeness only ever holds
    the literals 0.0, 0.3, 0.6 and 1.0 and goes through [min], [max] and
    comparisons, which are exact; it is a rational here. *)
Record Manifest := {
  tech : option string;
  version : option string;
  lang : string;
  sources : list string;
  completeness : Q;
  ttl_days : Z
}.

(** The fields of [topic_agent.TopicDecision] that the pack cache and the
    ingestion read. *)
Record TopicDecision := {
  decision_tech : option string;
  decision_subtopics : list string;
  decision_version : option string;
  decision_candidate_sources : list string
}.

(** An entry of a search hit list, the context and the citations. *)
Record Hit (score : Type) :=
  { hit_text : string; hit_url : string; hit_title : string; hit_score : score }.
Record ContextItem :=
  { ctx_text : string; ctx_url : string; ctx_title : string }.
Record Citation (score : Type) :=
  { cit_title : string; cit_url : string; cit_score : score }.

Arguments hit_text {score}.
Arguments hit_url {score}.
Arguments hit_title {score}.
Arguments hit_score {score}.
Arguments cit_title {score}.
Arguments cit_url {score}.
Arguments cit_score {score}.

(** One entry of [_pack_indexes]: the FAISS flat index (its stored vectors)
    and the parallel [meta] list. *)
Record PackIndex (vec : Type) := { index : list vec; meta : list Doc }.
Arguments index {vec}.
Arguments meta {vec}.

Definition ntotal {vec} (p : PackIndex vec) : Z := Z.of_nat (length (index p)).

(** A task handed to [asyncio.create_task]: the arguments of [_bg_ingest]. *)
Record BgTask := {
  bg_key : string;
  bg_sources : list string;
  bg_subs : list string;
  bg_limit : Z
}.

(** Calls made to the collaborators, in order. *)
Inductive Event :=
| EvGet (u : string)
| EvEncode (texts : list string)
| EvSearch (pack_key : string) (n : Z)
| EvPredict (pairs : list (string * string)).

(** The process state: the three module-level dictionaries, the tasks
    scheduled on the event loop and the calls made so far. *)
Record World (vec : Type) := {
  _packs : gmap string Manifest;
  _ingest_log : gmap string (list string);
  _pack_indexes : gmap string (PackIndex vec);
  tasks : list BgTask;
  trace : list Event
}.
Arguments _packs {vec}.
Arguments _ingest_log {vec}.
Arguments _pack_indexes {vec}.
Arguments tasks {vec}.
Arguments trace {vec}.

(** What a call returns: a value, or the exception it raises. *)
Inductive PyExc := IndexError.
Inductive Result (A : Type) := Ok (a : A) | Raise (e : PyExc).
Arguments Ok {A}.
Arguments Raise {A}.

(** The collaborators, as the sources call them. *)
Record Collab (vec score : Type) := {
  (** [client.get(url, timeout=20)], [raise_for_status()], [.text];
      [None] when any of them raises. *)
  client_get : string -> option string;
  (** [a["href"]] for [a] in [soup.find_all("a", href=True)]. *)
  soup_hrefs : string -> list string;
  (** [tag.get_text(separator=" ", strip=True)] for the tags
      [_extract_text] visits. *)
  soup_texts : string -> list string;
  (** [BeautifulSoup(html, "lxml").title], with [get_text(strip=True)]. *)
  soup_title : string -> option string;
  (** [urljoin(base_url, href)]; [None] when it raises ([ValueError] on a
      reference that does not parse). *)
  urljoin : string -> string -> option string;
  (** [urlparse(url)], its scheme and netloc; [None] when it raises. *)
  urlparse : string -> option Url.ParseResult;
  (** [model.encode(texts, convert_to_numpy=True).astype("float32")]. *)
  encode : list string -> list vec;
  (** The array arithmetic of [_normalize]. *)
  normalize : list vec -> list vec;
  (** [index.search(q_vec, n)]: row 0 of the label matrix, [-1] padded. *)
  index_search : list vec -> list vec -> Z -> list Z;
  (** [CrossEncoder.predict(pairs)]. *)
  predict : list (string * string) -> list score
}.
Arguments client_get {vec score}.
Arguments soup_hrefs {vec score}.
Arguments soup_texts {vec score}.
Arguments soup_title {vec score}.
Arguments urljoin {vec score}.
Arguments urlparse {vec score}.
Arguments encode {vec score}.
Arguments normalize {vec score}.
Arguments index_search {vec score}.
Arguments predict {vec score}.

(** ** [min] and [max] on the completeness values *)

Module PyFloat.

Definition ltb (a b : Q) : bool := negb (Qle_bool b a).

(** [max(a, b)]: [b] replaces [a] only when it is greater. *)
Definition max (a b : Q) : Q := if ltb a b then b else a.

(** [min(a, b)]: [b] replaces [a] only when it is smaller. *)
Definition min (a b : Q) : Q := if ltb b a then b else a.

End PyFloat.

(** ** Operations on the world *)

Section Engine.
Context {vec score : Type}.
Variable score_lt : score -> score -> bool.
Variable C : Collab vec score.

Definition log_event (e : Event) (w : World vec) : World vec :=
  {| _packs := _packs w; _ingest_log := _ingest_log w;
     _pack_indexes := _pack_indexes w; tasks := tasks w;
     trace := trace w ++ [e] |}.

Definition set_packs (p : gmap string Manifest) (w : World vec) : World vec :=
  {| _packs := p; _ingest_log := _ingest_log w;
     _pack_indexes := _pack_indexes w; tasks := tasks w; trace := trace w |}.

Definition set_ingest_log (l : gmap string (list string)) (w : World vec)
  : World vec :=
  {| _packs := _packs w; _ingest_log := l;
     _pack_indexes := _pack_indexes w; tasks := tasks w; trace := trace w |}.

Definition set_pack_indexes (i : gmap string (PackIndex vec)) (w : World vec)
  : World vec :=
  {| _packs := _packs w; _ingest_log := _ingest_log w;
     _pack_indexes := i; tasks := tasks w; trace := trace w |}.

Definition set_tasks (t : list BgTask) (w : World vec) : World vec :=
  {| _packs := _packs w; _ingest_log := _ingest_log w;
     _pack_indexes := _pack_indexes w; tasks := t; trace := trace w |}.

(** *** [rag/retriever.py]: the index store *)

Definition _ensure_index (pack_key : string) (w : World vec) : World vec :=
  match _pack_indexes w !! pack_key with
  | Some _ => w
  | None =>
      set_pack_indexes
        (<[pack_key := {| index := []; meta := [] |}]> (_pack_indexes w)) w
  end.

(** The pack's entry once [_ensure_index] has run. *)
Definition pack_entry (pack_key : string) (w : World vec) : PackIndex vec :=
  default {| index := []; meta := [] |} (_pack_indexes w !! pack_key).

Definition upsert_documents (pack_key : string) (docs : list Doc)
    (w : World vec) : World vec :=
  let w := _ensure_index pack_key w in
  let texts := map (fun d => "passage: " ++ text d) docs in
  let w := log_event (EvEncode texts) w in
  let vecs := normalize C (encode C texts) in
  set_pack_indexes
    (alter (fun p => {| index := index p ++ vecs; meta := meta p ++ docs |})
           pack_key (_pack_indexes w)) w.

Definition get_index_stats (pack_key : string) (w : World vec)
  : World vec * (Z * Z) :=
  let w := _ensure_index pack_key w in
  let p := pack_entry pack_key w in
  (w, (ntotal p, Z.of_nat (length (meta p)))).

(** *** [rag/ingest.py] *)

(** [None]: one of the two [urlparse] calls raised. *)
Definition _same_domain (url candidate : string) : option bool :=
  match urlparse C url, urlparse C candidate with
  | Some u, Some c =>
      Some (String.eqb (Url.netloc u) (Url.netloc c) &&
            (String.eqb (Url.scheme c) "http" ||
             String.eqb (Url.scheme c) "https"))
  | _, _ => None
  end.

Definition _extract_text (html : string) : string :=
  let parts := List.filter (fun txt => negb (String.eqb txt "")) (soup_texts C html) in
  String.substring 0 5000 (Py.join (String "010" EmptyString) parts).

Definition _fetch (u : string) (w : World vec) : World vec * option string :=
  (log_event (EvGet u) w, client_get C u).

(** The loop over the anchors of the page: [hrefs] is returned in append
    order.  [None]: [urljoin] or [_same_domain] raised on an anchor, which
    ends the loop and the call. *)
Fixpoint links_loop (base_url : string) (kws : list string)
    (anchors : list string) : option (list string) :=
  match anchors with
  | [] => Some []
  | a :: rest =>
      match urljoin C base_url a with
      | None => None
      | Some cand =>
          match _same_domain base_url cand with
          | None => None
          | Some false => links_loop base_url kws rest
          | Some true =>
              let slug := Py.lower cand in
              if existsb (fun kw => Py.contains kw slug) kws
              then option_map (cons cand) (links_loop base_url kws rest)
              else links_loop base_url kws rest
          end
      end
  end.

(** [None]: the call raised, in the fetch of the base page or in the loop
    over its anchors. *)
Definition _candidate_links (base_url : string) (keywords : list string)
    (limit : Z) (w : World vec) : World vec * option (list string) :=
  match _fetch base_url w with
  | (w, None) => (w, None)
  | (w, Some html) =>
      let kws := map Py.lower (List.filter Py.strip_truthy keywords) in
      match links_loop base_url kws (soup_hrefs C html) with
      | None => (w, None)
      | Some hrefs =>
          let hrefs := base_url :: Py.dedup hrefs in
          (w, Some (Py.slice_to limit hrefs))
      end
  end.

(** The inner loop of [ingest_stage_a]: one document per page fetched. *)
Fixpoint fetch_docs (links : list string) (w : World vec)
  : World vec * list Doc :=
  match links with
  | [] => (w, [])
  | u :: rest =>
      match _fetch u w with
      | (w, None) => fetch_docs rest w
      | (w, Some html) =>
          let d := {| title := default u (soup_title C html);
                      url := u;
                      text := _extract_text html |} in
          let '(w, docs) := fetch_docs rest w in
          (w, d :: docs)
      end
  end.

(** The outer loop of [ingest_stage_a], with its accumulators. *)
Fixpoint ingest_sources (pack_key : string) (srcs : list string)
    (subtopics : list string) (max_pages_per_source : Z)
    (total : Z) (all_urls : list string) (w : World vec)
  : World vec * (Z * list string) :=
  match srcs with
  | [] => (w, (total, all_urls))
  | base :: rest =>
      match _candidate_links base subtopics max_pages_per_source w with
      | (w, None) =>
          ingest_sources pack_key rest subtopics max_pages_per_source
                         total all_urls w
      | (w, Some links) =>
          let all_urls := (all_urls ++ links)%list in
          let '(w, docs) := fetch_docs links w in
          match docs with
          | [] =>
              ingest_sources pack_key rest subtopics max_pages_per_source
                             total all_urls w
          | _ :: _ =>
              let w := upsert_documents pack_key docs w in
              ingest_sources pack_key rest subtopics max_pages_per_source
                             (total + Z.of_nat (length docs)) all_urls w
          end
      end
  end.

Definition ingest_stage_a (pack_key : string) (srcs : list string)
    (subtopics : list string) (max_pages_per_source : Z) (w : World vec)
  : World vec * (Z * list string) :=
  match srcs with
  | [] => (w, (0, []))
  | _ :: _ =>
      let '(w, (total, all_urls)) :=
        ingest_sources pack_key srcs subtopics max_pages_per_source 0 [] w in
      (w, (total, Py.last_n 100 (Py.dedup all_urls)))
  end.

(** *** [rag/docpack_manager.py] *)

Definition get_manifest (key : string) (w : World vec) : option Manifest :=
  _packs w !! key.

Definition _log_ingest (key : string) (urls : list string) (w : World vec)
  : World vec :=
  match urls with
  | [] => w
  | _ :: _ =>
      let prev := default [] (_ingest_log w !! key) in
      let merged := (prev ++ urls)%list in
      let out := Py.dedup (Py.last_n 200 merged) in
      set_ingest_log (<[key := Py.last_n 50 out]> (_ingest_log w)) w
  end.

(** [_packs[key].completeness = c].  On a key without manifest the
    subscript raises and nothing is written. *)
Definition with_completeness (f : Q -> Q) (m : Manifest) : Manifest :=
  {| tech := tech m; version := version m; lang := lang m;
     sources := sources m; completeness := f (completeness m);
     ttl_days := ttl_days m |}.

Definition set_completeness (key : string) (f : Q -> Q) (w : World vec)
  : World vec :=
  set_packs (alter (with_completeness f) key (_packs w)) w.

Definition _bg_ingest (t : BgTask) (w : World vec) : World vec :=
  let '(w, (count, urls)) :=
    ingest_stage_a (bg_key t) (bg_sources t) (bg_subs t) (bg_limit t) w in
  let w := _log_ingest (bg_key t) urls w in
  if count =? 0 then w
  else set_completeness (bg_key t)
         (fun c => PyFloat.min 1 (PyFloat.max c 0.6)) w.

(** The key [ensure_pack_for_decision] derives for a decision. *)
Definition decision_key (decision : TopicDecision) (lang : string) : string :=
  let tech := decision_tech decision in
  let version := Py.or_str (decision_version decision) "latest" in
  let sources := decision_candidate_sources decision in
  _key_from_sources tech (Some version) lang sources.

(** [ensure_pack_for_decision] on a new key, up to its first [await]: the
    manifest is created before control is given up. *)
Definition ensure_begin (decision : TopicDecision) (lang : string)
    (w : World vec) : World vec :=
  let tech := decision_tech decision in
  let version := Py.or_str (decision_version decision) "latest" in
  let sources := decision_candidate_sources decision in
  let key := decision_key decision lang in
  set_packs
    (<[key := {| tech := tech; version := Some version; lang := lang;
                 sources := sources; completeness := 0; ttl_days := 14 |}]>
       (_packs w)) w.

(** The rest of [ensure_pack_for_decision]: the synchronous ingest, the
    log, the completeness, the scheduling of the enrichment and the
    result. *)
Definition ensure_finish (decision : TopicDecision) (lang : string)
    (w : World vec) : World vec * (string * string) :=
  let sources := decision_candidate_sources decision in
  let key := decision_key decision lang in
  let '(w, (count, urls)) :=
    ingest_stage_a key sources (decision_subtopics decision) 15 w in
  let w := _log_ingest key urls w in
  let w := set_completeness key
             (fun _ => if count =? 0 then 0 else 0.3)%Q w in
  let w := set_tasks
             (tasks w ++ [{| bg_key := key; bg_sources := sources;
                             bg_subs := decision_subtopics decision;
                             bg_limit := 30 |}]) w in
  (w, (key, if count =? 0 then "building" else "ready")).

Definition ensure_pack_for_decision (decision : TopicDecision)
    (lang : string) (w : World vec) : World vec * (string * string) :=
  let key := decision_key decision lang in
  match _packs w !! key with
  | Some _ => (w, (key, "ready"))
  | None => ensure_finish decision lang (ensure_begin decision lang w)
  end.

(** *** [rag/retriever.py]: retrieval *)

Definition hit_of (p : Doc * score) : Hit score :=
  {| hit_text := text (fst p); hit_url := url (fst p);
     hit_title := title (fst p); hit_score := snd p |}.

Definition context_of (h : Hit score) : ContextItem :=
  {| ctx_text := hit_text h; ctx_url := hit_url h; ctx_title := hit_title h |}.

Definition citation_of (h : Hit score) : Citation score :=
  {| cit_title := hit_title h; cit_url := hit_url h; cit_score := hit_score h |}.

(** [sorted(zip(cands, re_scores), key=lambda x: float(x[1]), reverse=True)]. *)
Definition rank (cands : list Doc) (re_scores : list score)
  : list (Doc * score) :=
  Py.sorted score_lt snd true (combine cands re_scores).

Definition pre_k_of (k n : Z) : Z := Z.min (Z.max (k * 3) 30) n.

Definition retrieve_from_pack (pack_key query : string) (k : Z)
    (w : World vec)
  : World vec * Result (list ContextItem * list (Citation score)) :=
  let w := _ensure_index pack_key w in
  let p := pack_entry pack_key w in
  if ntotal p =? 0 then (w, Ok ([], []))
  else
    let w := log_event (EvEncode ["query: " ++ query]) w in
    let q_vec := normalize C (encode C ["query: " ++ query]) in
    let pre_k := pre_k_of k (ntotal p) in
    let w := log_event (EvSearch pack_key pre_k) w in
    let idxs := List.filter (fun i => negb (i =? -1))
                       (index_search C (index p) q_vec pre_k) in
    match mapM (Py.index (meta p)) idxs with
    | None => (w, Raise IndexError)
    | Some cands =>
        let pairs := map (fun c => (query, text c)) cands in
        let w := log_event (EvPredict pairs) w in
        let re_scores := predict C pairs in
        let ranked := Py.slice_to k (rank cands re_scores) in
        let hits := map hit_of ranked in
        let context := map context_of hits in
        let citations := map citation_of (Py.slice_to 4 hits) in
        (w, Ok (context, citations))
    end.

(** *** The pack lifecycle under the event loop

    A configuration is the world together with the calls of
    [ensure_pack_for_decision] that are suspended at
    [await ingest_stage_a(...)].  A step is what one coroutine does between
    two points where it gives up control: a call of
    [ensure_pack_for_decision] on a known key, the start of one on a new
    key, the resumption of a suspended one, the run of a scheduled
    [_bg_ingest] task, a retrieval, or a read of the index statistics.
    An ingest runs within the step that awaits it: it reads and writes
    the indexes only, never [_packs], and the writes to [_packs] that
    follow it happen without a further [await]. *)

Record Config := {
  world : World vec;
  suspended : list (TopicDecision * string)
}.

Definition frame_key (f : TopicDecision * string) : string :=
  decision_key (fst f) (snd f).

Inductive step : Config -> Config -> Prop :=
| step_ensure_hit (c : Config) (d : TopicDecision) (lg : string) :
    is_Some (_packs (world c) !! decision_key d lg) ->
    step c {| world := fst (ensure_pack_for_decision d lg (world c));
              suspended := suspended c |}
| step_ensure_begin (c : Config) (d : TopicDecision) (lg : string) :
    _packs (world c) !! decision_key d lg = None ->
    step c {| world := ensure_begin d lg (world c);
              suspended := (d, lg) :: suspended c |}
| step_ensure_resume (c : Config) pre (d : TopicDecision) (lg : string) post :
    suspended c = (pre ++ (d, lg) :: post)%list ->
    step c {| world := fst (ensure_finish d lg (world c));
              suspended := (pre ++ post)%list |}
| step_bg_ingest (c : Config) pre (t : BgTask) post :
    tasks (world c) = (pre ++ t :: post)%list ->
    step c {| world := _bg_ingest t (set_tasks (pre ++ post) (world c));
              suspended := suspended c |}
| step_retrieve (c : Config) (pack_key query : string) (k : Z) :
    step c {| world := fst (retrieve_from_pack pack_key query k (world c));
              suspended := suspended c |}
| step_stats (c : Config) (pack_key : string) :
    step c {| world := fst (get_index_stats pack_key (world c));
              suspended := suspended c |}.

Definition init_world : World vec :=
  {| _packs := ∅; _ingest_log := ∅; _pack_indexes := ∅;
     tasks := []; trace := [] |}.

Definition init_config : Config :=
  {| world := init_world; suspended := [] |}.

Definition reachable (c : Config) : Prop := rtc step init_config c.

(** *** Observations of a retrieval and contracts of its collaborators *)

(** The labels kept by the dense-recall stage of
    [retrieve_from_pack pack_key query k]. *)
Definition recall_labels (pack_key query : string) (k : Z) (w : World vec)
  : list Z :=
  let p := pack_entry pack_key w in
  List.filter (fun i => negb (i =? -1))
    (index_search C (index p) (normalize C (encode C ["query: " ++ query]))
                  (pre_k_of k (ntotal p))).

(** The candidates [[meta[i] for i in idxs]], when every subscript is in
    range. *)
Definition recall_candidates (pack_key query : string) (k : Z) (w : World vec)
  : option (list Doc) :=
  mapM (Py.index (meta (pack_entry pack_key w)))
       (recall_labels pack_key query k w).

(** The scores the reranker gives to a candidate list. *)
Definition rerank_scores (query : string) (cands : list Doc) : list score :=
  predict C (map (fun c => (query, text c)) cands).

(** A flat index asked for [n] neighbours, with [n] at most the number of
    stored vectors, answers [n] labels, each the offset of a stored
    vector. *)
Definition search_contract : Prop :=
  forall (idx q : list vec) (n : Z),
    0 <= n <= Z.of_nat (length idx) ->
    length (index_search C idx q n) = Z.to_nat n /\
    Forall (fun i => 0 <= i < Z.of_nat (length idx)) (index_search C idx q n).

(** The reranker answers one score per pair. *)
Definition predict_contract : Prop :=
  forall pairs, length (predict C pairs) = length pairs.

(** *** Invariant of the lifecycle

    A suspended first build still sees the completeness 0 it created; no
    two suspended builds share a key; every scheduled enrichment is for a
    key that has a manifest and no suspended build; every completeness
    lies between 0 and 1. *)
Definition lifecycle_inv (c : Config) : Prop :=
  (forall f, In f (suspended c) ->
     exists m, _packs (world c) !! frame_key f = Some m /\
               completeness m = 0%Q) /\
  List.NoDup (map frame_key (suspended c)) /\
  (forall t, In t (tasks (world c)) ->
     is_Some (_packs (world c) !! bg_key t) /\
     ~ In (bg_key t) (map frame_key (suspended c))) /\
  (forall key m, _packs (world c) !! key = Some m ->
     (0 <= completeness m <= 1)%Q).

(** The number of documents the enrichment task [t] ingests from [w]. *)
Definition bg_count (t : BgTask) (w : World vec) : Z :=
  fst (snd (ingest_stage_a (bg_key t) (bg_sources t) (bg_subs t)
                           (bg_limit t) w)).

End Engine.

(** ** A concrete environment for the examples

    Vectors and scores are integers.  The site maps a URL to the hrefs of
    its page; the body of a page is identified with its URL.  The index
    search returns the first [n] offsets (padded with [-1]); the reranker
    scores a candidate by the length of its text. *)

Module Demo.

Definition site : list (string * list string) :=
  [ ("https://docs.example.com/guide/",
      [ "https://docs.example.com/guide/ingress";
        "http://docs.example.com/guide/ingress-tls";
        "https://other.example.org/ingress";
        "https://docs.example.com/guide/install";
        "https://docs.example.com/guide/ingress" ]);
    ("https://docs.example.com/guide/ingress", []);
    ("http://docs.example.com/guide/ingress-tls", []);
    ("https://docs.example.com/broken/",
      [ "https://docs.example.com/broken/ingress";
        "http://[bad/x" ]) ].

Definition page_hrefs (html : string) : list string :=
  match List.find (fun p => String.eqb (fst p) html) site with
  | Some p => snd p
  | None => []
  end.

Definition get (u : string) : option string :=
  if existsb (fun p => String.eqb (fst p) u) site then Some u else None.

Definition search (idx q : list Z) (n : Z) : list Z :=
  map (fun i => if Z.of_nat i <? Z.of_nat (length idx) then Z.of_nat i else -1)
      (seq 0 (Z.to_nat n)).

Definition collab : Collab Z Z :=
  {| client_get := get;
     soup_hrefs := page_hrefs;
     soup_texts := fun html => ["page"; ""; html];
     soup_title := fun _ => None;
     urljoin := Url.urljoin_plain;
     urlparse := Url.urlparse;
     encode := map (fun t => Z.of_nat (String.length t));
     normalize := fun v => v;
     index_search := search;
     predict := map (fun p => Z.of_nat (String.length (snd p))) |}.

Definition doc (n : nat) : Doc :=
  {| title := "t"; url := "u"; text := string_of_list_ascii (repeat "x"%char n) |}.

(** A world whose pack ["k"] holds the documents [docs]. *)
Definition world_with (docs : list Doc) : World Z :=
  upsert_documents collab "k" docs init_world.

Definition two_docs : list Doc := [doc 1; doc 2].

(** The hits of a retrieval over [two_docs], best first. *)
Definition two_hits : list (Hit Z) := map hit_of [(doc 2, 2); (doc 1, 1)].

Definition ten_docs : list Doc := map doc [3; 1; 4; 1; 5; 9; 2; 6; 5; 3]%nat.

(** Forty documents of growing length: the dense recall for [k = 5] sees
    the first thirty of them only. *)
Definition forty_docs : list Doc := map doc (seq 1 40).

Definition guide : TopicDecision :=
  {| decision_tech := Some "Kubernetes";
     decision_subtopics := ["Ingress"];
     decision_version := None;
     decision_candidate_sources := ["https://docs.example.com/guide/"] |}.

(** A decision whose only source cannot be fetched. *)
Definition offline : TopicDecision :=
  {| decision_tech := Some "Redis";
     decision_subtopics := ["streams"];
     decision_version := Some "7";
     decision_candidate_sources := ["https://offline.example.net/docs/"] |}.

(** The configurations of a first build of [d]: started, then resumed. *)
Definition started (d : TopicDecision) : @Config Z :=
  {| world := ensure_begin d "en" (world (@init_config Z));
     suspended := (d, "en") :: suspended (@init_config Z) |}.

Definition built (d : TopicDecision) : @Config Z :=
  {| world := fst (ensure_finish collab d "en" (world (started d)));
     suspended := ([] ++ [])%list |}.

(** The enrichment task that the build of [d] schedules. *)
Definition enrichment (d : TopicDecision) : BgTask :=
  {| bg_key := decision_key d "en";
     bg_sources := decision_candidate_sources d;
     bg_subs := decision_subtopics d;
     bg_limit := 30 |}.

(** The world after a first [ensure_pack_for_decision] on [guide]. *)
Definition after_guide : World Z :=
  fst (ensure_pack_for_decision collab guide "en" init_world).

(** The resolved hrefs of the guide page, in page order. *)
Definition guide_links : list string :=
  [ "https://docs.example.com/guide/ingress";
    "http://docs.example.com/guide/ingress-tls";
    "https://other.example.org/ingress";
    "https://docs.example.com/guide/install";
    "https://docs.example.com/guide/ingress" ].

End Demo.

(** ** Ranking order of the retrieval, in the words of the specification *)

(** A list tagged with the positions of its elements, from [s]. *)
Definition indexed_from {A} (s : nat) (l : list A) : list (nat * A) :=
  combine (seq s (length l)) l.

(** [ranks_before lt key a b]: the tagged element [a] ranks before [b]: a
    greater key first, and on equal keys the smaller position first. *)
Definition ranks_before {A K : Type} (lt : K -> K -> bool) (key : A -> K)
    (a b : nat * A) : Prop :=
  lt (key (snd b)) (key (snd a)) = true \/
  (lt (key (snd a)) (key (snd b)) = false /\
   lt (key (snd b)) (key (snd a)) = false /\ (fst a < fst b)%nat).

(** ** Link selection, in the words of the specification *)

Section LinkSpec.
Context {vec score : Type}.
Variable C : Collab vec score.

(** Same origin: same scheme and same host. *)
Definition same_origin (base candidate : string) : bool :=
  match urlparse C base, urlparse C candidate with
  | Some b, Some c =>
      String.eqb (Url.scheme b) (Url.scheme c) &&
      String.eqb (Url.netloc b) (Url.netloc c)
  | _, _ => false
  end.

(** The URL contains at least one supplied keyword, case-insensitively. *)
Definition mentions_keyword (keywords : list string) (candidate : string)
  : bool :=
  existsb (fun kw => Py.contains (Py.lower kw) (Py.lower candidate)) keywords.

(** The candidate list as the specification words it, over the resolved
    hrefs [cands] of the page: the base URL, then the same-origin links
    that contain a supplied keyword, in discovery order without
    duplicates, the whole cut to [limit] entries. *)
Definition spec_candidate_links (base : string) (keywords : list string)
    (limit : nat) (cands : list string) : list string :=
  firstn limit
    (base :: Py.dedup
       (List.filter
          (fun cand => same_origin base cand && mentions_keyword keywords cand)
          cands)).

(** Every [urlparse] that the loop makes over the resolved hrefs returns:
    that of each of them and, when there is one, that of the base URL. *)
Definition all_parse (base : string) (cands : list string) : bool :=
  match cands with
  | [] => true
  | _ => match urlparse C base with Some _ => true | None => false end &&
         forallb (fun c => match urlparse C c with
                           | Some _ => true
                           | None => false
                           end) cands
  end.

(** Same netloc as the base URL, and scheme http or https. *)
Definition same_netloc_http (base candidate : string) : bool :=
  match urlparse C base, urlparse C candidate with
  | Some b, Some c =>
      String.eqb (Url.netloc b) (Url.netloc c) &&
      (String.eqb (Url.scheme c) "http" || String.eqb (Url.scheme c) "https")
  | _, _ => false
  end.

(** The selection to compare [_candidate_links] with: same netloc, scheme
    http or https, and a keyword that is not blank in the URL. *)
Definition kept_link (base : string) (keywords : list string)
    (candidate : string) : bool :=
  same_netloc_http base candidate &&
  mentions_keyword (List.filter Py.strip_truthy keywords) candidate.

End LinkSpec.

(** ** Further operations: pack summaries and the orchestrating graph *)

(** One entry of [pack_summaries()]. *)
Record PackSummary := {
  sum_key : string;
  sum_tech : option string;
  sum_version : option string;
  sum_lang : string;
  sum_sources : list string;
  sum_completeness : Q;
  sum_ntotal : Z;
  sum_recent_urls : list string
}.

(** A [TopicDecision] as [orchestrator/graph.py] reads it: the fields the
    pack cache reads, the confidence and the clarifying question.  The
    confidence is the rational value of the float (the classifier clamps
    it to a number between 0.0 and 1.0). *)
Record Classified := {
  topic : TopicDecision;
  confidence : Q;
  clarify : string
}.

(** [graph.TurnState]. *)
Record TurnState (score : Type) := {
  ts_user_msg : string;
  ts_context : list ContextItem;
  ts_citations : list (Citation score);
  ts_pack_key : option string;
  ts_decision : option Classified;
  ts_mode : string
}.
Arguments ts_user_msg {score}.
Arguments ts_context {score}.
Arguments ts_citations {score}.
Arguments ts_pack_key {score}.
Arguments ts_decision {score}.
Arguments ts_mode {score}.

(** The cut of [_extract_text]: 5000 characters. *)
Definition text_cap : nat := 5000.

Section Summaries.
Context {vec score : Type}.
Variable C : Collab vec score.

(** The embedder answers one vector per text, and [_normalize] keeps the
    number of rows. *)
Definition encode_contract : Prop :=
  forall texts, length (normalize C (encode C texts)) = length texts.

(** Every pack has as many vectors as metadata entries. *)
Definition aligned (w : World vec) : Prop :=
  forall key p, _pack_indexes w !! key = Some p ->
                length (index p) = length (meta p).

(** Every stored document has a text of at most [text_cap] characters. *)
Definition texts_bounded (w : World vec) : Prop :=
  forall key p d, _pack_indexes w !! key = Some p -> In d (meta p) ->
                  (String.length (text d) <= text_cap)%nat.

(** [docpack_manager.pack_summaries].  The loop follows the iteration
    order of the [_packs] dict (insertion order), which the map does not
    record: [order] is that order, an enumeration of the keys of [_packs].
    A key of [order] without manifest is not visited. *)
Fixpoint pack_summaries (order : list string) (w : World vec)
  : World vec * list PackSummary :=
  match order with
  | [] => (w, [])
  | key :: rest =>
      match _packs w !! key with
      | None => pack_summaries rest w
      | Some man =>
          let '(w, stats) := get_index_stats key w in
          let s := {| sum_key := key;
                      sum_tech := tech man;
                      sum_version := version man;
                      sum_lang := lang man;
                      sum_sources := sources man;
                      sum_completeness := completeness man;
                      sum_ntotal := fst stats;
                      sum_recent_urls :=
                        Py.last_n 10 (default [] (_ingest_log w !! key)) |} in
          let '(w, out) := pack_summaries rest w in
          (w, s :: out)
      end
  end.

End Summaries.

(** The number of page fetches among the calls [evs]. *)
Definition count_gets (evs : list Event) : nat :=
  length (List.filter (fun e => match e with EvGet _ => true | _ => false end)
                      evs).

(** The calls [evs] are page fetches and embeddings only. *)
Definition fetch_or_encode (evs : list Event) : Prop :=
  Forall (fun e => match e with
                   | EvGet _ | EvEncode _ => True
                   | _ => False
                   end) evs.

Section Observations.
Context {vec score : Type}.
Variable C : Collab vec score.

(** The number of documents the synchronous ingest of a first build of
    [decision] ingests from [w]. *)
Definition sync_count (decision : TopicDecision) (lg : string)
    (w : World vec) : Z :=
  fst (snd (ingest_stage_a C (decision_key decision lg)
              (decision_candidate_sources decision)
              (decision_subtopics decision) 15
              (ensure_begin decision lg w))).

(** The manifest a first build of [decision] leaves, given the number of
    documents its synchronous ingest got. *)
Definition built_manifest (decision : TopicDecision) (lg : string)
    (count : Z) : Manifest :=
  {| tech := decision_tech decision;
     version := Some (Py.or_str (decision_version decision) "latest");
     lang := lg;
     sources := decision_candidate_sources decision;
     completeness := if count =? 0 then 0 else 0.3;
     ttl_days := 14 |}.

(** The enrichment task a first build of [decision] schedules. *)
Definition enrichment_task (decision : TopicDecision) (lg : string) : BgTask :=
  {| bg_key := decision_key decision lg;
     bg_sources := decision_candidate_sources decision;
     bg_subs := decision_subtopics decision;
     bg_limit := 30 |}.

(** A property of every pack of the index store. *)
Definition all_packs (Q : PackIndex vec -> Prop) (w : World vec) : Prop :=
  forall key p, _pack_indexes w !! key = Some p -> Q p.

(** The ingest log of every key holds at most 50 URLs, all distinct. *)
Definition logs_bounded (w : World vec) : Prop :=
  forall key l, _ingest_log w !! key = Some l ->
                List.NoDup l /\ (length l <= 50)%nat.

End Observations.

(** *** [orchestrator/graph.py]: the plan and retrieve nodes of a turn *)

Module Graph.

(** The float written [0.35] in [plan]: the double nearest to 35/100. *)
Definition confidence_threshold : Q :=
  3152519739159347 # 9007199254740992.

Section Nodes.
Context {vec score : Type}.
Variable score_lt : score -> score -> bool.
Variable C : Collab vec score.
(** [topic_agent.classify]: the decision the language model gives for a
    user message. *)
Variable classify : string -> Classified.

Definition set_mode (m : string) (s : TurnState score) : TurnState score :=
  {| ts_user_msg := ts_user_msg s; ts_context := ts_context s;
     ts_citations := ts_citations s; ts_pack_key := ts_pack_key s;
     ts_decision := ts_decision s; ts_mode := m |}.

Definition set_decision (d : Classified) (s : TurnState score)
  : TurnState score :=
  {| ts_user_msg := ts_user_msg s; ts_context := ts_context s;
     ts_citations := ts_citations s; ts_pack_key := ts_pack_key s;
     ts_decision := Some d; ts_mode := ts_mode s |}.

Definition set_pack_key (k : string) (s : TurnState score) : TurnState score :=
  {| ts_user_msg := ts_user_msg s; ts_context := ts_context s;
     ts_citations := ts_citations s; ts_pack_key := Some k;
     ts_decision := ts_decision s; ts_mode := ts_mode s |}.

Definition set_results (ctx : list ContextItem) (cits : list (Citation score))
    (s : TurnState score) : TurnState score :=
  {| ts_user_msg := ts_user_msg s; ts_context := ctx;
     ts_citations := cits; ts_pack_key := ts_pack_key s;
     ts_decision := ts_decision s; ts_mode := ts_mode s |}.

(** [TurnState(user_msg=user_msg)]. *)
Definition new_state (user_msg : string) : TurnState score :=
  {| ts_user_msg := user_msg; ts_context := []; ts_citations := [];
     ts_pack_key := None; ts_decision := None; ts_mode := "clarify" |}.

Definition plan (state : TurnState score) (w : World vec)
  : World vec * TurnState score :=
  let d := classify (ts_user_msg state) in
  let state := set_decision d state in
  match decision_candidate_sources (topic d) with
  | [] => (w, set_mode "clarify" state)
  | _ :: _ =>
      if PyFloat.ltb (confidence d) confidence_threshold
      then (w, set_mode "clarify" state)
      else
        let '(w, (key, _)) := ensure_pack_for_decision C (topic d) "en" w in
        (w, set_mode "grounded" (set_pack_key key state))
  end.

(** [not state.pack_key]: [None] and [""] are falsy. *)
Definition no_pack_key (state : TurnState score) : bool :=
  match ts_pack_key state with
  | None => true
  | Some k => String.eqb k ""
  end.

Definition retrieve (state : TurnState score) (w : World vec)
  : World vec * Result (TurnState score) :=
  if negb (String.eqb (ts_mode state) "grounded") || no_pack_key state
  then (w, Ok state)
  else
    match retrieve_from_pack score_lt C (default "" (ts_pack_key state))
                             (ts_user_msg state) 20 w with
    | (w, Raise e) => (w, Raise e)
    | (w, Ok (ctx, cits)) =>
        let state := set_results ctx cits state in
        match cits with
        | [] => (w, Ok (set_mode "clarify" state))
        | _ :: _ => (w, Ok state)
        end
    end.

(** The [try] block of [run_turn]: a fresh state through [plan], then
    [retrieve]. *)
Definition run_turn_nodes (user_msg : string) (w : World vec)
  : World vec * Result (TurnState score) :=
  let state := new_state user_msg in
  let '(w, state) := plan state w in
  retrieve state w.

End Nodes.

End Graph.

(** ** Further examples *)

Module Scenario.

(** Two decisions that list the same two sources in opposite orders, the
    second with the version spelled out. *)
Definition two_sources : TopicDecision :=
  {| decision_tech := Some "Kubernetes";
     decision_subtopics := ["Ingress"];
     decision_version := None;
     decision_candidate_sources :=
       ["https://docs.example.com/guide/"; "https://offline.example.net/docs/"] |}.

Definition two_sources_swapped : TopicDecision :=
  {| decision_tech := Some "Kubernetes";
     decision_subtopics := [];
     decision_version := Some "latest";
     decision_candidate_sources :=
       ["https://offline.example.net/docs/"; "https://docs.example.com/guide/"] |}.

(** A decision without candidate sources. *)
Definition unsourced : TopicDecision :=
  {| decision_tech := None;
     decision_subtopics := ["Ingress"];
     decision_version := None;
     decision_candidate_sources := [] |}.

(** A classifier that is confident about [Demo.guide]. *)
Definition classify (user_msg : string) : Classified :=
  {| topic := Demo.guide; confidence := 0.9; clarify := "" |}.

(** What the retrieval of the 5 best of [Demo.ten_docs] returns. *)
Definition ten_context : list ContextItem :=
  Eval vm_compute in
    match snd (retrieve_from_pack Z.ltb Demo.collab "k" "ingress" 5
                 (Demo.world_with Demo.ten_docs)) with
    | Ok r => fst r
    | Raise _ => []
    end.

Definition ten_citations : list (Citation Z) :=
  Eval vm_compute in
    match snd (retrieve_from_pack Z.ltb Demo.collab "k" "ingress" 5
                 (Demo.world_with Demo.ten_docs)) with
    | Ok r => snd r
    | Raise _ => []
    end.

End Scenario.

(* ================================================================== *)
(** * Properties *)
(* ================================================================== *)

(** ** Test vectors *)

Example sha256_empty :
  Sha256.hexdigest "" =
  "e3b0c44298fc1c149afbf4c8996fb92427ae41e4649b934ca495991b7852b855".
Proof. vm_compute. reflexivity. Qed.

Example sha256_abc :
  Sha256.hexdigest "abc" =
  "ba7816bf8f01cfea414140de5dae2223b00361a396177a9cb410ff61f20015ad".
Proof. vm_compute. reflexivity. Qed.

Example sha256_constants :
  length Sha256.K = 64%nat /\
  nth 0 Sha256.K 0 = 0x428a2f98 /\ nth 63 Sha256.K 0 = 0xc67178f2 /\
  nth 0 Sha256.H0 0 = 0x6a09e667 /\ nth 7 Sha256.H0 0 = 0x5be0cd19.
Proof. vm_compute. repeat split; reflexivity. Qed.

Example sha256_two_blocks :
  Sha256.hexdigest "abcdbcdecdefdefgefghfghighijhijkijkljklmklmnlmnomnopnopq" =
  "248d6a61d20638b8e5c026930c3e6039a33ce45964ff2167f6ecedd419db06c1".
Proof. vm_compute. reflexivity. Qed.

Example key_raw_demo :
  key_raw (Some "Redis") None "en" ["https://b.io/"; "https://a.io/"] =
  "Redis|latest|en|https://a.io/,https://b.io/".
Proof. reflexivity. Qed.

Example key_raw_empty_tech :
  key_raw (Some "") (Some "7") "en" [] = "generic|7|en|".
Proof. reflexivity. Qed.

(** ** Order facts about [str] comparison *)

Lemma ascii_compare_N (a b : ascii) :
  Ascii.compare a b = N.compare (N_of_ascii a) (N_of_ascii b).
Proof. reflexivity. Qed.

Lemma string_compare_refl (s : string) : String.compare s s = Eq.
Proof.
  induction s as [|c s IH]; simpl; [reflexivity|].
  rewrite ascii_compare_N, N.compare_refl. exact IH.
Qed.

Lemma string_compare_lt_trans (a b c : string) :
  String.compare a b = Lt -> String.compare b c = Lt -> String.compare a c = Lt.
Proof.
  revert b c. induction a as [|x a IH]; intros [|y b] [|z c]; simpl;
    try discriminate; try reflexivity.
  rewrite !ascii_compare_N.
  destruct (N.compare_spec (N_of_ascii x) (N_of_ascii y)) as [Hxy|Hxy|Hxy];
    destruct (N.compare_spec (N_of_ascii y) (N_of_ascii z)) as [Hyz|Hyz|Hyz];
    try discriminate; intros Hab Hbc.
  - rewrite Hxy, Hyz, N.compare_refl. eapply IH; eassumption.
  - rewrite Hxy. apply N.compare_lt_iff in Hyz. rewrite Hyz. reflexivity.
  - rewrite <- Hyz. apply N.compare_lt_iff in Hxy. rewrite Hxy. reflexivity.
  - assert (H : (N_of_ascii x < N_of_ascii z)%N) by lia.
    apply N.compare_lt_iff in H. rewrite H. reflexivity.
Qed.

Lemma string_ltb_asym (a b : string) :
  String.ltb a b = true -> String.ltb b a = false.
Proof.
  unfold String.ltb. rewrite (String.compare_antisym a b).
  destruct (String.compare b a); simpl; congruence.
Qed.

Lemma string_ltb_tricho (a b : string) :
  String.ltb a b = false -> String.ltb b a = false -> a = b.
Proof.
  unfold String.ltb. rewrite (String.compare_antisym a b).
  destruct (String.compare b a) eqn:E; simpl; try congruence.
  intros _ _. symmetry. apply String.compare_eq_iff. exact E.
Qed.

Lemma string_ltb_trans (a b c : string) :
  String.ltb a b = true -> String.ltb b c = true -> String.ltb a c = true.
Proof.
  unfold String.ltb.
  destruct (String.compare a b) eqn:E1; try discriminate.
  destruct (String.compare b c) eqn:E2; try discriminate.
  rewrite (string_compare_lt_trans _ _ _ E1 E2). reflexivity.
Qed.

Lemma string_ltb_between (x y z : string) :
  String.ltb z x = false -> String.ltb z y = true -> String.ltb x y = true.
Proof.
  intros Hzx Hzy.
  destruct (String.ltb x y) eqn:Hxy; [reflexivity|].
  destruct (String.ltb y x) eqn:Hyx.
  - rewrite (string_ltb_trans _ _ _ Hzy Hyx) in Hzx. discriminate.
  - rewrite (string_ltb_tricho _ _ Hxy Hyx) in Hzx. congruence.
Qed.

(** ** Sorting a permutation: insertions commute on a strict total order *)

Section SortPermutation.
Context {A : Type} (lt : A -> A -> bool).
Hypothesis lt_asym : forall a b, lt a b = true -> lt b a = false.
Hypothesis lt_tricho : forall a b, lt a b = false -> lt b a = false -> a = b.
Hypothesis lt_between :
  forall x y z, lt z x = false -> lt z y = true -> lt x y = true.

Local Abbreviation ins := (Py.ins lt (fun x => x)).
Local Abbreviation sort := (Py.sort_stable lt (fun x => x)).

Lemma ins_pair (x y : A) (l : list A) :
  lt x y = false -> lt y x = false -> x :: y :: l = y :: x :: l.
Proof. intros H1 H2. rewrite (lt_tricho _ _ H1 H2). reflexivity. Qed.

Lemma ins_comm (x y : A) (l : list A) : ins x (ins y l) = ins y (ins x l).
Proof.
  induction l as [|z l IH]; simpl.
  - destruct (lt y x) eqn:Hyx, (lt x y) eqn:Hxy; try reflexivity.
    + rewrite (lt_asym _ _ Hyx) in Hxy. discriminate.
    + apply ins_pair; assumption.
  - destruct (lt z y) eqn:Hzy, (lt z x) eqn:Hzx; simpl;
      rewrite ?Hzy, ?Hzx.
    + rewrite IH. reflexivity.
    + rewrite (lt_between _ _ _ Hzx Hzy). reflexivity.
    + rewrite (lt_between _ _ _ Hzy Hzx). reflexivity.
    + destruct (lt y x) eqn:Hyx, (lt x y) eqn:Hxy; simpl;
        rewrite ?Hzx, ?Hzy; try reflexivity.
      * rewrite (lt_asym _ _ Hyx) in Hxy. discriminate.
      * apply ins_pair; assumption.
Qed.

Lemma sort_stable_perm (l1 l2 : list A) :
  Permutation l1 l2 -> sort l1 = sort l2.
Proof.
  induction 1 as [|x l1 l2 _ IH|x y l|l1 l2 l3 _ IH1 _ IH2];
    unfold Py.sort_stable in *; simpl.
  - reflexivity.
  - rewrite IH. reflexivity.
  - apply ins_comm.
  - congruence.
Qed.
End SortPermutation.

(** ** Pack key: order of the sources, duplicates, separators *)

Lemma sorted_sources_perm (s1 s2 : list string) :
  Permutation s1 s2 ->
  Py.sorted String.ltb (fun s => s) false s1 =
  Py.sorted String.ltb (fun s => s) false s2.
Proof.
  intros HP. unfold Py.sorted.
  apply (sort_stable_perm String.ltb string_ltb_asym string_ltb_tricho
           string_ltb_between). exact HP.
Qed.

(** C1 (amended): the pack key does not depend on the order of the source
    list: two descriptors with the same tech, version and language whose
    source lists are permutations of each other (same entries, same
    multiplicities) derive the same key. *)
Theorem key_from_sources_permutation
    (tech version : option string) (lang : string) (s1 s2 : list string) :
  Permutation s1 s2 ->
  _key_from_sources tech version lang s1 = _key_from_sources tech version lang s2.
Proof.
  intros HP. unfold _key_from_sources, key_raw.
  rewrite (sorted_sources_perm s1 s2 HP). reflexivity.
Qed.

Lemma key_from_sources_permutation_witness :
  _key_from_sources (Some "Redis") None "en"
    ["https://redis.io/docs/"; "https://github.com/redis/redis"] =
  _key_from_sources (Some "Redis") None "en"
    ["https://github.com/redis/redis"; "https://redis.io/docs/"].
Proof.
  apply (key_from_sources_permutation (Some "Redis") None "en").
  apply perm_swap.
Defined.

(** C1 as stated fails: [sorted(sources)] keeps duplicates, so a source
    list and the same list with one entry repeated hash different strings
    ("generic|latest|en|a,a" against "generic|latest|en|a"). *)
Lemma key_from_sources_duplicates_differ :
  ~ (forall (tech version : option string) (lang : string)
            (s1 s2 : list string),
        (forall u, In u s1 <-> In u s2) ->
        _key_from_sources tech version lang s1 =
        _key_from_sources tech version lang s2).
Proof.
  intros H.
  specialize (H None None "en" ["a"; "a"] ["a"]).
  assert (Hset : forall u, In u ["a"; "a"] <-> In u ["a"]).
  { intros u. simpl. tauto. }
  specialize (H Hset). vm_compute in H. discriminate H.
Qed.

(** C10: the key is not injective on topic descriptors.  The sources are
    joined with [","] and the fields with ["|"], neither escaped: the
    one-element source list ["a,b"] and the two-element list ["a"; "b"]
    derive the same key, and so do (tech "a|b", version "c") and
    (tech "a", version "b|c"). *)
Theorem key_from_sources_not_injective :
  (forall (tech version : option string) (lang : string),
      ["a,b"] <> ["a"; "b"] /\
      _key_from_sources tech version lang ["a,b"] =
      _key_from_sources tech version lang ["a"; "b"]) /\
  (forall (lang : string) (sources : list string),
      (Some "a|b", Some "c") <> (Some "a", Some "b|c") /\
      _key_from_sources (Some "a|b") (Some "c") lang sources =
      _key_from_sources (Some "a") (Some "b|c") lang sources).
Proof.
  split.
  - intros tech version lang. split; [discriminate|].
    unfold _key_from_sources, key_raw. reflexivity.
  - intros lang sources. split; [discriminate|].
    unfold _key_from_sources, key_raw. reflexivity.
Qed.

(** ** Frame facts: which fields each operation touches *)

Section Frames.
Context {vec score : Type}.
Variable C : Collab vec score.

Lemma pack_entry_ensure (pack_key : string) (w : World vec) :
  pack_entry pack_key (_ensure_index pack_key w) = pack_entry pack_key w.
Proof.
  unfold pack_entry, _ensure_index.
  destruct (_pack_indexes w !! pack_key) eqn:E; simpl.
  - rewrite E. reflexivity.
  - rewrite lookup_insert_eq. reflexivity.
Qed.

Lemma ensure_index_frame (pack_key : string) (w : World vec) :
  _packs (_ensure_index pack_key w) = _packs w /\
  _ingest_log (_ensure_index pack_key w) = _ingest_log w /\
  tasks (_ensure_index pack_key w) = tasks w /\
  trace (_ensure_index pack_key w) = trace w.
Proof.
  unfold _ensure_index. destruct (_pack_indexes w !! pack_key); auto.
Qed.

Lemma upsert_documents_frame (pack_key : string) (docs : list Doc)
    (w : World vec) :
  _packs (upsert_documents C pack_key docs w) = _packs w /\
  _ingest_log (upsert_documents C pack_key docs w) = _ingest_log w /\
  tasks (upsert_documents C pack_key docs w) = tasks w.
Proof.
  unfold upsert_documents. simpl.
  destruct (ensure_index_frame pack_key w) as (H1 & H2 & H3 & _). auto.
Qed.

Lemma fetch_docs_frame (links : list string) (w : World vec) :
  _packs (fst (fetch_docs C links w)) = _packs w /\
  _ingest_log (fst (fetch_docs C links w)) = _ingest_log w /\
  tasks (fst (fetch_docs C links w)) = tasks w /\
  _pack_indexes (fst (fetch_docs C links w)) = _pack_indexes w.
Proof.
  revert w. induction links as [|u rest IH]; intros w; simpl; [auto|].
  destruct (client_get C u) as [html|].
  - specialize (IH (log_event (EvGet u) w)).
    destruct (fetch_docs C rest (log_event (EvGet u) w)) as [w' docs].
    simpl in *. exact IH.
  - apply (IH (log_event (EvGet u) w)).
Qed.

(** Whatever it returns, [_candidate_links] leaves the state with one
    more fetch recorded. *)
Lemma candidate_links_world (base : string) (kws : list string) (limit : Z)
    (w : World vec) :
  fst (_candidate_links C base kws limit w) = log_event (EvGet base) w.
Proof.
  unfold _candidate_links, _fetch.
  destruct (client_get C base); [|reflexivity].
  destruct (links_loop C base _ _); reflexivity.
Qed.

Lemma candidate_links_frame (base : string) (kws : list string) (limit : Z)
    (w : World vec) :
  _packs (fst (_candidate_links C base kws limit w)) = _packs w /\
  _ingest_log (fst (_candidate_links C base kws limit w)) = _ingest_log w /\
  tasks (fst (_candidate_links C base kws limit w)) = tasks w /\
  _pack_indexes (fst (_candidate_links C base kws limit w)) = _pack_indexes w.
Proof. rewrite candidate_links_world. simpl. auto. Qed.

Lemma ingest_sources_frame (pack_key : string) (srcs subs : list string)
    (limit total : Z) (all_urls : list string) (w : World vec) :
  let w' := fst (ingest_sources C pack_key srcs subs limit total all_urls w) in
  _packs w' = _packs w /\ _ingest_log w' = _ingest_log w /\ tasks w' = tasks w.
Proof.
  revert total all_urls w.
  induction srcs as [|base rest IH]; intros total all_urls w; simpl; [auto|].
  pose proof (candidate_links_frame base subs limit w) as (F1 & F2 & F3 & _).
  destruct (_candidate_links C base subs limit w) as [w1 [links|]];
    simpl in F1, F2, F3.
  - pose proof (fetch_docs_frame links w1) as (G1 & G2 & G3 & _).
    destruct (fetch_docs C links w1) as [w2 docs]. simpl in G1, G2, G3.
    destruct docs as [|d docs].
    + destruct (IH total (all_urls ++ links)%list w2) as (I1 & I2 & I3).
      repeat split; congruence.
    + pose proof (upsert_documents_frame pack_key (d :: docs) w2)
        as (U1 & U2 & U3).
      destruct (IH (total + Z.of_nat (length (d :: docs)))
                   (all_urls ++ links)%list
                   (upsert_documents C pack_key (d :: docs) w2))
        as (I1 & I2 & I3).
      repeat split; congruence.
  - destruct (IH total all_urls w1) as (I1 & I2 & I3).
    repeat split; congruence.
Qed.

Lemma ingest_stage_a_frame (pack_key : string) (srcs subs : list string)
    (limit : Z) (w : World vec) :
  let w' := fst (ingest_stage_a C pack_key srcs subs limit w) in
  _packs w' = _packs w /\ _ingest_log w' = _ingest_log w /\ tasks w' = tasks w.
Proof.
  unfold ingest_stage_a. destruct srcs as [|s srcs]; [simpl; auto|].
  pose proof (ingest_sources_frame pack_key (s :: srcs) subs limit 0 [] w) as H.
  destruct (ingest_sources C pack_key (s :: srcs) subs limit 0 [] w)
    as [w' [total all_urls]].
  exact H.
Qed.

Lemma log_ingest_frame (key : string) (urls : list string) (w : World vec) :
  _packs (_log_ingest key urls w) = _packs w /\
  tasks (_log_ingest key urls w) = tasks w.
Proof. unfold _log_ingest. destruct urls; auto. Qed.

End Frames.

(** ** The pack cache on a known key *)

Section PackCache.
Context {vec score : Type}.
Variable C : Collab vec score.

(** C6: when a manifest exists for the derived key, whatever its
    completeness, [ensure_pack_for_decision] returns that key with status
    ["ready"] and leaves the whole world as it was: manifests, ingest log,
    indexes, scheduled tasks, and no collaborator is called. *)
Theorem ensure_pack_existing_is_noop
    (d : TopicDecision) (lg : string) (w : World vec) (m : Manifest) :
  _packs w !! decision_key d lg = Some m ->
  ensure_pack_for_decision C d lg w = (w, (decision_key d lg, "ready")).
Proof.
  intros H. unfold ensure_pack_for_decision. rewrite H. reflexivity.
Qed.

End PackCache.

Lemma ensure_pack_existing_is_noop_witness :
  ensure_pack_for_decision Demo.collab Demo.guide "en" Demo.after_guide =
  (Demo.after_guide, (decision_key Demo.guide "en", "ready")).
Proof.
  apply (ensure_pack_existing_is_noop Demo.collab Demo.guide "en"
           Demo.after_guide
           {| tech := Some "Kubernetes"; version := Some "latest";
              lang := "en"; sources := ["https://docs.example.com/guide/"];
              completeness := 0.3; ttl_days := 14 |}).
  vm_compute. reflexivity.
Defined.

(** ** The stable sort: permutation, order, ties *)

Section StableSortBasics.
Context {A K : Type} (lt : K -> K -> bool) (key : A -> K).

Lemma ins_perm (x : A) (l : list A) : Permutation (Py.ins lt key x l) (x :: l).
Proof.
  induction l as [|y l IH]; simpl; [reflexivity|].
  destruct (lt (key y) (key x)); [|reflexivity].
  rewrite IH. apply perm_swap.
Qed.

Lemma sort_stable_permutation (l : list A) :
  Permutation (Py.sort_stable lt key l) l.
Proof.
  induction l as [|x l IH]; simpl; [reflexivity|].
  rewrite ins_perm. apply perm_skip. exact IH.
Qed.

Lemma sorted_permutation (r : bool) (l : list A) :
  Permutation (Py.sorted lt key r l) l.
Proof.
  unfold Py.sorted. destruct r.
  - rewrite <- Permutation_rev, sort_stable_permutation.
    symmetry. apply Permutation_rev.
  - apply sort_stable_permutation.
Qed.

Lemma sorted_length (r : bool) (l : list A) :
  length (Py.sorted lt key r l) = length l.
Proof. apply Permutation_length, sorted_permutation. Qed.

(** Sorting commutes with a map that preserves the keys. *)
Lemma ins_map {B : Type} (f : B -> A) (x : B) (l : list B) :
  map f (Py.ins lt (fun b => key (f b)) x l) = Py.ins lt key (f x) (map f l).
Proof.
  induction l as [|y l IH]; simpl; [reflexivity|].
  destruct (lt (key (f y)) (key (f x))); simpl; [rewrite IH|]; reflexivity.
Qed.

Lemma sort_stable_map {B : Type} (f : B -> A) (l : list B) :
  map f (Py.sort_stable lt (fun b => key (f b)) l) =
  Py.sort_stable lt key (map f l).
Proof.
  induction l as [|x l IH]; simpl; [reflexivity|].
  rewrite ins_map, IH. reflexivity.
Qed.

Lemma sorted_map {B : Type} (f : B -> A) (r : bool) (l : list B) :
  map f (Py.sorted lt (fun b => key (f b)) r l) = Py.sorted lt key r (map f l).
Proof.
  unfold Py.sorted. destruct r.
  - rewrite map_rev, sort_stable_map, map_rev. reflexivity.
  - apply sort_stable_map.
Qed.

End StableSortBasics.

Lemma StronglySorted_snoc {A} (R : A -> A -> Prop) (l : list A) (a : A) :
  StronglySorted R l -> Forall (fun y => R y a) l ->
  StronglySorted R (l ++ [a]).
Proof.
  induction l as [|x l IH]; intros Hs Ha; simpl.
  - constructor; constructor.
  - apply StronglySorted_inv in Hs as [Hs Hx].
    apply Forall_cons in Ha as [Hxa Ha].
    constructor; [apply IH; assumption|].
    apply Forall_app. split; [exact Hx|]. constructor; [exact Hxa|constructor].
Qed.

Lemma StronglySorted_rev {A} (R : A -> A -> Prop) (l : list A) :
  StronglySorted R l -> StronglySorted (flip R) (rev l).
Proof.
  induction 1 as [|a l Hs IH Ha]; simpl; [constructor|].
  apply StronglySorted_snoc; [exact IH|].
  apply List.Forall_forall. intros y Hy. unfold flip.
  rewrite List.Forall_forall in Ha. apply Ha, in_rev, Hy.
Qed.

Lemma indexed_from_snd {A} (s : nat) (l : list A) :
  map snd (indexed_from s l) = l.
Proof.
  revert s. induction l as [|x l IH]; intros s; [reflexivity|].
  unfold indexed_from in *. simpl. rewrite IH. reflexivity.
Qed.

Lemma indexed_from_ge {A} (s : nat) (l : list A) (p : nat * A) :
  In p (indexed_from s l) -> (s <= fst p)%nat.
Proof.
  destruct p as [i a]. intros H. unfold indexed_from in H.
  apply in_combine_l in H. apply in_seq in H. simpl. lia.
Qed.

Lemma indexed_from_sorted {A} (s : nat) (l : list A) :
  StronglySorted (fun a b : nat * A => (fst a < fst b)%nat) (indexed_from s l).
Proof.
  revert s. induction l as [|x l IH]; intros s; [constructor|].
  change (indexed_from s (x :: l)) with ((s, x) :: indexed_from (S s) l).
  constructor; [apply IH|].
  apply List.Forall_forall. intros p Hp.
  apply indexed_from_ge in Hp. simpl. lia.
Qed.

Section StableSortRanks.
Context {A K : Type} (lt : K -> K -> bool) (key : A -> K).

Local Abbreviation before := (ranks_before lt key).

Hypothesis lt_asym : forall a b, lt a b = true -> lt b a = false.
Hypothesis lt_negtrans :
  forall a b c, lt a b = false -> lt b c = false -> lt a c = false.

Local Abbreviation tkey := (fun p : nat * A => key (snd p)).

Lemma before_of_not_lt (x z : nat * A) :
  lt (key (snd z)) (key (snd x)) = false -> (fst z < fst x)%nat -> before z x.
Proof.
  intros Hzx Htag. unfold ranks_before.
  destruct (lt (key (snd x)) (key (snd z))) eqn:E; [left; reflexivity|].
  right. auto.
Qed.

Lemma before_not_lt (z y : nat * A) :
  before z y -> lt (key (snd z)) (key (snd y)) = false.
Proof. intros [H|(H & _ & _)]; [apply lt_asym|]; exact H. Qed.

Lemma ins_strongly_sorted (x : nat * A) (s : list (nat * A)) :
  StronglySorted (flip before) s ->
  Forall (fun y => (fst y < fst x)%nat) s ->
  StronglySorted (flip before) (Py.ins lt tkey x s).
Proof.
  induction s as [|y s IH]; intros Hs Htag; simpl.
  - constructor; constructor.
  - apply StronglySorted_inv in Hs as [Hs Hy].
    apply Forall_cons in Htag as [Hyx Htag].
    destruct (lt (key (snd y)) (key (snd x))) eqn:E.
    + constructor; [apply IH; assumption|].
      rewrite (ins_perm lt tkey x s). constructor; [|exact Hy].
      left. exact E.
    + constructor; [constructor; assumption|].
      constructor; [apply before_of_not_lt; assumption|].
      rewrite !Forall_forall in *.
      intros z Hz. apply before_of_not_lt; [|apply Htag; exact Hz].
      apply (lt_negtrans _ (key (snd y))); [|exact E].
      apply before_not_lt, Hy, Hz.
Qed.

Lemma sort_stable_ranked (l : list (nat * A)) :
  StronglySorted (fun a b => (fst b < fst a)%nat) l ->
  StronglySorted (flip before) (Py.sort_stable lt tkey l).
Proof.
  induction 1 as [|x l Hs IH Hx]; simpl; [constructor|].
  apply ins_strongly_sorted; [exact IH|].
  rewrite (sort_stable_permutation lt tkey l). exact Hx.
Qed.

(** The descending stable sort of a list is the list of its tagged
    elements ordered by [before]. *)
Lemma sorted_reverse_ranked (l : list A) :
  exists tagged : list (nat * A),
    Permutation tagged (indexed_from 0 l) /\
    StronglySorted before tagged /\
    map snd tagged = Py.sorted lt key true l.
Proof.
  exists (Py.sorted lt tkey true (indexed_from 0 l)).
  split; [apply sorted_permutation|]. split.
  - unfold Py.sorted.
    apply (StronglySorted_rev (flip before)).
    apply sort_stable_ranked.
    apply (StronglySorted_rev (fun a b : nat * A => (fst a < fst b)%nat)).
    apply indexed_from_sorted.
  - rewrite (sorted_map lt key snd true), indexed_from_snd. reflexivity.
Qed.

End StableSortRanks.

(** ** Retrieval *)

Section Retrieval.
Context {vec score : Type}.
Variable score_lt : score -> score -> bool.
Variable C : Collab vec score.

Local Abbreviation retrieve := (retrieve_from_pack score_lt C).

(** The world after the three collaborator calls of a retrieval. *)
Lemma retrieve_unfold (pack_key query : string) (k : Z) (w : World vec) :
  ntotal (pack_entry pack_key w) <> 0 ->
  retrieve pack_key query k w =
  let p := pack_entry pack_key w in
  let w1 := log_event (EvSearch pack_key (pre_k_of k (ntotal p)))
              (log_event (EvEncode ["query: " ++ query])
                 (_ensure_index pack_key w)) in
  match recall_candidates C pack_key query k w with
  | None => (w1, Raise IndexError)
  | Some cands =>
      let hits := map hit_of
                    (Py.slice_to k (rank score_lt cands
                                      (rerank_scores C query cands))) in
      (log_event (EvPredict (map (fun c => (query, text c)) cands)) w1,
       Ok (map context_of hits, map citation_of (Py.slice_to 4 hits)))
  end.
Proof.
  intros Hn. unfold retrieve_from_pack.
  rewrite pack_entry_ensure.
  destruct (ntotal (pack_entry pack_key w) =? 0) eqn:E;
    [apply Z.eqb_eq in E; contradiction|].
  unfold recall_candidates, recall_labels, rerank_scores. simpl.
  destruct (mapM _ _); reflexivity.
Qed.

(** The early return on [index.ntotal == 0]. *)
Lemma retrieve_short_circuit (pack_key query : string) (k : Z) (w : World vec) :
  ntotal (pack_entry pack_key w) = 0 ->
  retrieve pack_key query k w = (_ensure_index pack_key w, Ok ([], [])).
Proof.
  intros Hn. unfold retrieve_from_pack.
  rewrite pack_entry_ensure, Hn. reflexivity.
Qed.

(** C7: on a pack whose index holds no vector (or that has no index yet),
    [retrieve_from_pack] returns the pair of empty lists for every query
    and every [k], in particular every [k > 0]; it raises nothing and
    calls no collaborator: the trace is unchanged and the world is the one
    [_ensure_index] leaves. *)
Theorem retrieve_empty_index
    (pack_key query : string) (k : Z) (w : World vec) :
  ntotal (pack_entry pack_key w) = 0 ->
  snd (retrieve pack_key query k w) = Ok ([], []) /\
  fst (retrieve pack_key query k w) = _ensure_index pack_key w /\
  trace (fst (retrieve pack_key query k w)) = trace w.
Proof.
  intros Hn. rewrite (retrieve_short_circuit _ _ _ _ Hn). simpl.
  split; [reflexivity|]. split; [reflexivity|].
  apply ensure_index_frame.
Qed.

Lemma slice_to_nonneg {A} (k : Z) (l : list A) :
  0 <= k -> Py.slice_to k l = firstn (Z.to_nat k) l.
Proof.
  intros Hk. unfold Py.slice_to.
  destruct (0 <=? k) eqn:E; [reflexivity|]. apply Z.leb_gt in E. lia.
Qed.

Lemma slice_to_length {A} (k : Z) (l : list A) :
  0 <= k -> Z.of_nat (length (Py.slice_to k l)) <= k.
Proof.
  intros Hk. rewrite slice_to_nonneg by exact Hk.
  rewrite length_firstn. lia.
Qed.

(** C4 (amended): for every [k >= 0], a retrieval that returns gives at
    most [k] context items and at most [min(k, 4)] citations; the
    citations are those of the first 4 returned hits, in the same order,
    and all of them when there are fewer than 4. *)
Theorem retrieve_result_bounds
    (pack_key query : string) (k : Z) (w : World vec)
    (context : list ContextItem) (citations : list (Citation score)) :
  0 <= k ->
  snd (retrieve pack_key query k w) = Ok (context, citations) ->
  Z.of_nat (length context) <= k /\
  Z.of_nat (length citations) <= Z.min k 4 /\
  exists hits : list (Hit score),
    context = map context_of hits /\
    citations = map citation_of (firstn 4 hits) /\
    length citations = Nat.min 4 (length hits).
Proof.
  intros Hk Hret.
  destruct (Z.eq_dec (ntotal (pack_entry pack_key w)) 0) as [Hn|Hn].
  - rewrite (retrieve_short_circuit _ _ _ _ Hn) in Hret. simpl in Hret.
    injection Hret as <- <-. simpl. repeat split; try lia.
    exists []. auto.
  - rewrite (retrieve_unfold _ _ _ _ Hn) in Hret. cbv zeta in Hret.
    destruct (recall_candidates C pack_key query k w) as [cands|];
      simpl in Hret; [|discriminate].
    injection Hret as <- <-.
    set (hits := map hit_of (Py.slice_to k _)).
    assert (Hlen : Z.of_nat (length hits) <= k).
    { unfold hits. rewrite length_map. apply slice_to_length, Hk. }
    rewrite (slice_to_nonneg 4) by lia. change (Z.to_nat 4) with 4%nat.
    rewrite !length_map, length_firstn.
    repeat split; try lia.
    exists hits. auto.
Qed.

End Retrieval.

Lemma retrieve_empty_index_witness :
  snd (retrieve_from_pack Z.ltb Demo.collab "k" "ingress" 5 init_world) =
    Ok ([], []) /\
  fst (retrieve_from_pack Z.ltb Demo.collab "k" "ingress" 5 init_world) =
    _ensure_index "k" init_world /\
  trace (fst (retrieve_from_pack Z.ltb Demo.collab "k" "ingress" 5 init_world)) =
    trace (@init_world Z).
Proof.
  apply (retrieve_empty_index Z.ltb Demo.collab "k" "ingress" 5 init_world).
  reflexivity.
Defined.

Lemma retrieve_result_bounds_witness :
  Z.of_nat (length (map context_of Demo.two_hits)) <= 5 /\
  Z.of_nat (length (map citation_of Demo.two_hits)) <= Z.min 5 4 /\
  exists hits : list (Hit Z),
    map context_of Demo.two_hits = map context_of hits /\
    map citation_of Demo.two_hits = map citation_of (firstn 4 hits) /\
    length (map citation_of Demo.two_hits) = Nat.min 4 (length hits).
Proof.
  apply (retrieve_result_bounds Z.ltb Demo.collab "k" "ingress" 5
           (Demo.world_with Demo.two_docs)).
  - lia.
  - vm_compute. reflexivity.
Defined.

(** C4 as stated fails for a negative [k]: the slice [[:k]] then keeps all
    the hits but the last [-k].  On a pack of two documents, [k = -1]
    returns one context item and one citation. *)
Lemma retrieve_negative_k_exceeds :
  exists context citations,
    snd (retrieve_from_pack Z.ltb Demo.collab "k" "ingress" (-1)
           (Demo.world_with Demo.two_docs)) = Ok (context, citations) /\
    length context = 1%nat /\ length citations = 1%nat /\
    ~ (Z.of_nat (length context) <= -1) /\
    ~ (Z.of_nat (length citations) <= Z.min (-1) 4).
Proof.
  eexists. eexists. split; [vm_compute; reflexivity|].
  simpl. repeat split; lia.
Qed.

(** ** Retrieval: the dense-recall request and the final ranking *)

Section RetrievalStages.
Context {vec score : Type}.
Variable score_lt : score -> score -> bool.
Variable C : Collab vec score.

Local Abbreviation retrieve := (retrieve_from_pack score_lt C).

Lemma filter_keeps_valid (n : Z) (labels : list Z) :
  Forall (fun i => 0 <= i < n) labels ->
  List.filter (fun i => negb (i =? -1)) labels = labels.
Proof.
  induction 1 as [|i l Hi _ IH]; simpl; [reflexivity|].
  destruct (i =? -1) eqn:E; [apply Z.eqb_eq in E; lia|].
  simpl. rewrite IH. reflexivity.
Qed.

Lemma py_index_in_range {A} (l : list A) (i : Z) :
  0 <= i < Z.of_nat (length l) -> is_Some (Py.index l i).
Proof.
  intros Hi. unfold Py.index.
  destruct (0 <=? i) eqn:E1; [|apply Z.leb_gt in E1; lia].
  destruct (i <? Z.of_nat (length l)) eqn:E2; [|apply Z.ltb_ge in E2; lia].
  simpl. destruct (nth_error l (Z.to_nat i)) eqn:E; [eauto|].
  apply nth_error_None in E. lia.
Qed.

(** Under the contracts, every label of the recall stage is a valid
    subscript of [meta], so the candidates exist, one per label. *)
Lemma recall_candidates_total (pack_key query : string) (k : Z)
    (w : World vec) :
  search_contract C ->
  ntotal (pack_entry pack_key w) <> 0 ->
  length (meta (pack_entry pack_key w)) = length (index (pack_entry pack_key w)) ->
  exists cands,
    recall_candidates C pack_key query k w = Some cands /\
    length cands = Z.to_nat (pre_k_of k (ntotal (pack_entry pack_key w))).
Proof.
  intros Hs Hn Hmeta. unfold recall_candidates, recall_labels.
  set (p := pack_entry pack_key w) in *.
  set (qv := normalize C (encode C ["query: " ++ query])).
  assert (Hpre : 0 <= pre_k_of k (ntotal p) <= Z.of_nat (length (index p))).
  { unfold pre_k_of, ntotal in *. lia. }
  destruct (Hs (index p) qv _ Hpre) as [Hlen Hall].
  rewrite (filter_keeps_valid _ _ Hall).
  destruct (mapM_is_Some_2 (Py.index (meta p))
              (index_search C (index p) qv (pre_k_of k (ntotal p))))
    as [cands Hc].
  { eapply Forall_impl; [exact Hall|]. intros i Hi. simpl.
    apply py_index_in_range. rewrite Hmeta. exact Hi. }
  exists cands. split; [exact Hc|].
  apply length_mapM in Hc. congruence.
Qed.

(** Under the contracts a retrieval on a consistent pack returns. *)
Lemma retrieve_returns (pack_key query : string) (k : Z) (w : World vec) :
  search_contract C ->
  length (meta (pack_entry pack_key w)) = length (index (pack_entry pack_key w)) ->
  exists context citations,
    snd (retrieve pack_key query k w) = Ok (context, citations).
Proof.
  intros Hs Hmeta.
  destruct (Z.eq_dec (ntotal (pack_entry pack_key w)) 0) as [Hn|Hn].
  - rewrite (retrieve_short_circuit score_lt C _ _ _ _ Hn). simpl. eauto.
  - destruct (recall_candidates_total pack_key query k w Hs Hn Hmeta)
      as (cands & Hc & _).
    rewrite (retrieve_unfold score_lt C _ _ _ _ Hn). cbv zeta.
    rewrite Hc. simpl. eauto.
Qed.

(** C5: whenever the index is not empty, the retrieval asks the index
    for [min(max(k*3, 30), ntotal)] neighbours of the normalised embedding
    of the query, once, right after embedding it, and works on the answer
    to that request: the candidates are [meta[i]] for the labels answered
    (those other than [-1]), all of them are passed to the reranker, and
    the result is made of their ranking; when a label is no subscript of
    [meta] the call raises after the search.  On a pack of 10 documents
    with [k = 5], and collaborators that honour their contracts, the
    request is for 10 neighbours, all 10 candidates are passed to the
    reranker, and the call returns 5 context items and 4 citations. *)
Theorem retrieve_dense_recall
    (pack_key query : string) (k : Z) (w : World vec) :
  ntotal (pack_entry pack_key w) <> 0 ->
  (let p := pack_entry pack_key w in
   let pre_k := Z.min (Z.max (k * 3) 30) (Z.of_nat (length (index p))) in
   let labels :=
     List.filter (fun i => negb (i =? -1))
       (index_search C (index p)
          (normalize C (encode C [("query: " ++ query)%string])) pre_k) in
   match mapM (Py.index (meta p)) labels with
   | Some cands =>
       let pairs := map (fun c => (query, text c)) cands in
       trace (fst (retrieve pack_key query k w)) =
         (trace w ++
          [EvEncode [("query: " ++ query)%string]; EvSearch pack_key pre_k;
           EvPredict pairs])%list /\
       snd (retrieve pack_key query k w) =
         Ok (map context_of
               (map hit_of
                  (Py.slice_to k (rank score_lt cands (predict C pairs)))),
             map citation_of
               (Py.slice_to 4
                  (map hit_of
                     (Py.slice_to k
                        (rank score_lt cands (predict C pairs))))))
   | None =>
       trace (fst (retrieve pack_key query k w)) =
         (trace w ++
          [EvEncode [("query: " ++ query)%string];
           EvSearch pack_key pre_k])%list /\
       snd (retrieve pack_key query k w) = Raise IndexError
   end) /\
  (k = 5 ->
   length (index (pack_entry pack_key w)) = 10%nat ->
   length (meta (pack_entry pack_key w)) = 10%nat ->
   search_contract C -> predict_contract C ->
   exists cands context citations,
     mapM (Py.index (meta (pack_entry pack_key w)))
          (index_search C (index (pack_entry pack_key w))
             (normalize C (encode C [("query: " ++ query)%string])) 10)
       = Some cands /\
     trace (fst (retrieve pack_key query k w)) =
       (trace w ++
        [EvEncode [("query: " ++ query)%string]; EvSearch pack_key 10;
         EvPredict (map (fun c => (query, text c)) cands)])%list /\
     length cands = 10%nat /\
     length (predict C (map (fun c => (query, text c)) cands)) = 10%nat /\
     snd (retrieve pack_key query k w) = Ok (context, citations) /\
     length context = 5%nat /\ length citations = 4%nat).
Proof.
  intros Hn. rewrite (retrieve_unfold score_lt C _ _ _ _ Hn). cbv zeta.
  destruct (ensure_index_frame pack_key w) as (_ & _ & _ & Htr).
  unfold recall_candidates, recall_labels, rerank_scores, pre_k_of, ntotal.
  split.
  - destruct (mapM _ _) as [cands|]; simpl;
      rewrite Htr, <- ?app_assoc; split; reflexivity.
  - intros -> Hidx Hmeta Hs Hp.
    destruct (recall_candidates_total pack_key query 5 w Hs Hn)
      as (cands & Hc & Hlen); [congruence|].
    unfold recall_candidates, recall_labels, pre_k_of, ntotal in Hc, Hlen.
    rewrite Hidx in Hc, Hlen |- *.
    change (Z.min (Z.max (5 * 3) 30) (Z.of_nat 10)) with 10 in Hc, Hlen |- *.
    change (Z.to_nat 10) with 10%nat in Hlen.
    rewrite Hc. simpl.
    assert (Hsc : length (predict C (map (fun c => (query, text c)) cands))
                  = 10%nat).
    { rewrite Hp, length_map. exact Hlen. }
    exists cands. eexists. eexists.
    split.
    { rewrite <- Hc. symmetry. f_equal.
      apply (filter_keeps_valid (Z.of_nat (length (index (pack_entry pack_key w))))).
      apply Hs. rewrite Hidx. lia. }
    split; [rewrite Htr, <- !app_assoc; reflexivity|].
    split; [exact Hlen|]. split; [exact Hsc|].
    split; [reflexivity|].
    assert (Hr : length (rank score_lt cands
                           (predict C (map (fun c => (query, text c)) cands)))
                 = 10%nat).
    { unfold rank. rewrite sorted_length, length_combine, Hlen, Hsc.
      reflexivity. }
    rewrite !length_map. unfold Py.slice_to. simpl.
    rewrite !length_firstn, length_map, length_firstn, Hr. split; reflexivity.
Qed.


End RetrievalStages.

(** ** Ingestion: the candidate links of a source *)

Lemma dedup_from_In (seen l : list string) (x : string) :
  In x (Py.dedup_from seen l) <-> In x l /\ ~ In x seen.
Proof.
  revert seen. induction l as [|u l IH]; intros seen; simpl; [tauto|].
  destruct (existsb (String.eqb u) seen) eqn:E.
  - apply existsb_exists in E as (y & Hy & Heq).
    apply String.eqb_eq in Heq. subst y.
    rewrite IH. split; [tauto|].
    intros [[->|H] Hn]; [contradiction|tauto].
  - assert (Hu : ~ In u seen).
    { intros Hin. apply Bool.not_true_iff_false in E. apply E.
      apply existsb_exists. exists u. split; [exact Hin|apply String.eqb_refl]. }
    simpl. rewrite IH. simpl. split.
    + intros [->|(H1 & H2)]; [tauto|]. split; [tauto|]. tauto.
    + intros [[->|H] Hn]; [tauto|].
      destruct (String.eqb_spec u x) as [->|Hne]; [tauto|]. right. tauto.
Qed.

Lemma dedup_from_NoDup (seen l : list string) :
  List.NoDup (Py.dedup_from seen l).
Proof.
  revert seen. induction l as [|u l IH]; intros seen; simpl; [constructor|].
  destruct (existsb (String.eqb u) seen); [apply IH|].
  constructor; [|apply IH].
  rewrite dedup_from_In. simpl. tauto.
Qed.

(** [dedup] keeps exactly the elements of its input, once each. *)
Lemma dedup_In (l : list string) (x : string) : In x (Py.dedup l) <-> In x l.
Proof. unfold Py.dedup. rewrite dedup_from_In. simpl. tauto. Qed.

Lemma dedup_NoDup (l : list string) : List.NoDup (Py.dedup l).
Proof. apply dedup_from_NoDup. Qed.

(** [dedup] keeps the order of its input. *)
Lemma dedup_from_sublist (seen l : list string) :
  sublist (Py.dedup_from seen l) l.
Proof.
  revert seen. induction l as [|u l IH]; intros seen; simpl; [constructor|].
  destruct (existsb (String.eqb u) seen).
  - apply sublist_cons, IH.
  - apply sublist_skip, IH.
Qed.

Lemma firstn_In {A} (n : nat) (l : list A) (x : A) :
  In x (firstn n l) -> In x l.
Proof.
  revert l. induction n as [|n IH]; intros [|y l]; simpl; try tauto.
  intros [H|H]; [left; exact H|right; apply IH, H].
Qed.

Lemma slice_to_In {A} (k : Z) (l : list A) (x : A) :
  In x (Py.slice_to k l) -> In x l.
Proof. unfold Py.slice_to. destruct (0 <=? k); apply firstn_In. Qed.

Lemma existsb_map_fun {A B} (f : A -> B) (p : B -> bool) (l : list A) :
  existsb p (map f l) = existsb (fun a => p (f a)) l.
Proof.
  induction l as [|a l IH]; simpl; [reflexivity|]. rewrite IH. reflexivity.
Qed.

Section CandidateLinks.
Context {vec score : Type}.
Variable C : Collab vec score.

Lemma all_parse_cons (base cand : string) (cands : list string) :
  all_parse C base (cand :: cands) =
  match urlparse C base, urlparse C cand with
  | Some _, Some _ => all_parse C base cands
  | _, _ => false
  end.
Proof.
  unfold all_parse at 1. simpl.
  destruct (urlparse C base) as [pb|] eqn:Hb; simpl; [|reflexivity].
  destruct (urlparse C cand); simpl; [|reflexivity].
  unfold all_parse. rewrite Hb. destruct cands; reflexivity.
Qed.

(** The loop over the anchors returns when every anchor resolves and
    every parse returns, and is then a filter of the resolved hrefs; it
    raises otherwise. *)
Lemma links_loop_filter (base : string) (kws anchors : list string) :
  links_loop C base kws anchors =
  match mapM (urljoin C base) anchors with
  | Some cands =>
      if all_parse C base cands
      then Some (List.filter
                   (fun cand =>
                      same_netloc_http C base cand &&
                      existsb (fun kw => Py.contains kw (Py.lower cand)) kws)
                   cands)
      else None
  | None => None
  end.
Proof.
  induction anchors as [|a rest IH]; [reflexivity|].
  cbn [links_loop mapM]. rewrite IH. clear IH.
  destruct (urljoin C base a) as [cand|]; [|reflexivity].
  cbn [mbind option_bind].
  destruct (mapM (urljoin C base) rest) as [cs|];
    cbn [mbind option_bind mret option_ret].
  - rewrite all_parse_cons. cbn [List.filter].
    unfold _same_domain, same_netloc_http.
    destruct (urlparse C base) as [pb|]; [|reflexivity].
    destruct (urlparse C cand) as [pc|]; [|reflexivity].
    destruct (String.eqb (Url.netloc pb) (Url.netloc pc) &&
              (String.eqb (Url.scheme pc) "http" ||
               String.eqb (Url.scheme pc) "https")); cbn [andb];
      [|reflexivity].
    destruct (existsb _ kws); [|reflexivity].
    destruct (all_parse C base cs); reflexivity.
  - destruct (_same_domain C base cand) as [[|]|]; try reflexivity.
    destruct (existsb _ kws); reflexivity.
Qed.

Lemma links_loop_kept (base : string) (keywords anchors : list string) :
  links_loop C base (map Py.lower (List.filter Py.strip_truthy keywords)) anchors =
  match mapM (urljoin C base) anchors with
  | Some cands =>
      if all_parse C base cands
      then Some (List.filter (kept_link C base keywords) cands)
      else None
  | None => None
  end.
Proof.
  rewrite links_loop_filter.
  destruct (mapM (urljoin C base) anchors) as [cands|]; [|reflexivity].
  destruct (all_parse C base cands); [|reflexivity].
  f_equal. apply filter_ext. intros cand.
  unfold kept_link, mentions_keyword. rewrite existsb_map_fun. reflexivity.
Qed.

(** The call as a whole, once the base page is fetched. *)
Lemma candidate_links_unfold (base : string) (keywords : list string)
    (limit : Z) (w : World vec) (html : string) :
  client_get C base = Some html ->
  _candidate_links C base keywords limit w =
  (log_event (EvGet base) w,
   match mapM (urljoin C base) (soup_hrefs C html) with
   | Some cands =>
       if all_parse C base cands
       then Some (Py.slice_to limit
                    (base :: Py.dedup
                       (List.filter (kept_link C base keywords) cands)))
       else None
   | None => None
   end).
Proof.
  intros Hget. unfold _candidate_links, _fetch. rewrite Hget.
  rewrite links_loop_kept.
  destruct (mapM (urljoin C base) (soup_hrefs C html)) as [cands|];
    [|reflexivity].
  destruct (all_parse C base cands); reflexivity.
Qed.

(** [same_netloc_http], read on the two parse results. *)
Lemma same_netloc_http_spec (base u : string) :
  same_netloc_http C base u = true <->
  exists pb pu,
    urlparse C base = Some pb /\ urlparse C u = Some pu /\
    Url.netloc pu = Url.netloc pb /\
    (Url.scheme pu = "http" \/ Url.scheme pu = "https").
Proof.
  unfold same_netloc_http. split.
  - destruct (urlparse C base) as [pb|]; [|discriminate].
    destruct (urlparse C u) as [pu|]; [|discriminate].
    intros H. apply andb_true_iff in H as [Hnet Hsch].
    apply String.eqb_eq in Hnet. exists pb, pu.
    split; [reflexivity|]. split; [reflexivity|]. split; [congruence|].
    apply orb_true_iff in Hsch as [H|H]; apply String.eqb_eq in H; auto.
  - intros (pb & pu & -> & -> & Hnet & Hsch).
    apply andb_true_iff. split; [apply String.eqb_eq; congruence|].
    apply orb_true_iff.
    destruct Hsch as [H|H]; [left|right]; apply String.eqb_eq; exact H.
Qed.

(** [kept_link] names a keyword that is not blank. *)
Lemma keyword_match_spec (keywords : list string) (u : string) :
  mentions_keyword (List.filter Py.strip_truthy keywords) u = true <->
  exists kw, In kw keywords /\ Py.strip_truthy kw = true /\
             Py.contains (Py.lower kw) (Py.lower u) = true.
Proof.
  unfold mentions_keyword. rewrite existsb_exists. split.
  - intros (kw & Hin & Hc). apply filter_In in Hin as [Hin Hs].
    exists kw. auto.
  - intros (kw & Hin & Hs & Hc). exists kw. split; [|exact Hc].
    apply filter_In. auto.
Qed.

(** C8 (amended): when the base page is fetched, every href resolves and
    every parse returns, [_candidate_links] returns the base URL followed
    by the links found, cut to [limit] entries, and a URL is among the
    links found exactly when it is the resolution of an href of the page,
    has the same netloc (host and port) as the base URL, has scheme http
    or https and contains, case-insensitively, a keyword that is not
    blank.  The scheme of the base URL is not compared: a link that meets
    these conditions is found whatever the base scheme. *)
Theorem candidate_links_same_domain
    (base : string) (keywords : list string) (limit : Z) (w : World vec)
    (html : string) (cands : list string) :
  client_get C base = Some html ->
  mapM (urljoin C base) (soup_hrefs C html) = Some cands ->
  all_parse C base cands = true ->
  exists found links,
    snd (_candidate_links C base keywords limit w) = Some links /\
    (0 <= limit -> links = firstn (Z.to_nat limit) (base :: found)) /\
    (forall u, In u links -> u = base \/ In u found) /\
    (forall u, In u found <->
       In u cands /\
       (exists pb pu,
          urlparse C base = Some pb /\ urlparse C u = Some pu /\
          Url.netloc pu = Url.netloc pb /\
          (Url.scheme pu = "http" \/ Url.scheme pu = "https")) /\
       (exists kw, In kw keywords /\ Py.strip_truthy kw = true /\
                   Py.contains (Py.lower kw) (Py.lower u) = true)).
Proof.
  intros Hget Hres Hparse.
  rewrite (candidate_links_unfold _ _ _ _ _ Hget), Hres, Hparse. simpl.
  exists (Py.dedup (List.filter (kept_link C base keywords) cands)).
  eexists. split; [reflexivity|].
  split; [intros Hlim; apply slice_to_nonneg; exact Hlim|].
  split.
  - intros u Hu. apply slice_to_In in Hu. destruct Hu as [Hu|Hu]; auto.
  - intros u. rewrite dedup_In, filter_In. unfold kept_link.
    rewrite andb_true_iff, same_netloc_http_spec, keyword_match_spec.
    tauto.
Qed.

(** C9 (amended): when the base page is fetched and [limit >= 0], the
    call raises unless every href resolves and every parse returns; it
    then returns the base URL followed by the resolved hrefs that have
    the netloc of the base URL, scheme http or https and contain,
    case-insensitively, a keyword that is not blank, in discovery order
    and without duplicates, the whole cut to [limit] entries.  When no
    keyword is left after dropping the blank ones, no link is found and
    the list is the base URL alone, cut to [limit]. *)
Theorem candidate_links_shape
    (base : string) (keywords : list string) (limit : Z) (w : World vec)
    (html : string) :
  client_get C base = Some html ->
  0 <= limit ->
  snd (_candidate_links C base keywords limit w) =
    match mapM (urljoin C base) (soup_hrefs C html) with
    | Some cands =>
        if all_parse C base cands
        then Some (firstn (Z.to_nat limit)
                     (base :: Py.dedup
                        (List.filter (kept_link C base keywords) cands)))
        else None
    | None => None
    end /\
  forall cands,
    let found := List.filter (kept_link C base keywords) cands in
    List.NoDup (Py.dedup found) /\
    sublist (Py.dedup found) found /\
    (forall u, In u (Py.dedup found) <-> In u found) /\
    (List.filter Py.strip_truthy keywords = [] -> found = []).
Proof.
  intros Hget Hlim. split.
  - rewrite (candidate_links_unfold _ _ _ _ _ Hget). simpl.
    destruct (mapM (urljoin C base) (soup_hrefs C html)) as [cands|];
      [|reflexivity].
    destruct (all_parse C base cands); [|reflexivity].
    rewrite (slice_to_nonneg limit) by exact Hlim. reflexivity.
  - intros cands found.
    split; [apply dedup_NoDup|].
    split; [apply dedup_from_sublist|]. split; [apply dedup_In|].
    intros Hblank. unfold found.
    induction cands as [|cand l IH]; simpl; [reflexivity|].
    unfold kept_link at 1, mentions_keyword. rewrite Hblank. simpl.
    rewrite andb_false_r. exact IH.
Qed.

End CandidateLinks.

(** ** The example environment honours the contracts *)

Lemma demo_search_contract : search_contract Demo.collab.
Proof.
  intros idx q n [H0 Hn]. simpl. unfold Demo.search. split.
  - rewrite length_map, length_seq. reflexivity.
  - apply List.Forall_forall. intros x Hx.
    apply in_map_iff in Hx as (i & <- & Hi). apply in_seq in Hi.
    destruct (Z.of_nat i <? Z.of_nat (length idx)) eqn:E.
    + apply Z.ltb_lt in E. lia.
    + apply Z.ltb_ge in E. lia.
Qed.

Lemma demo_predict_contract : predict_contract Demo.collab.
Proof. intros pairs. simpl. apply length_map. Qed.

Lemma Z_ltb_asym (a b : Z) : (a <? b) = true -> (b <? a) = false.
Proof. intros H. apply Z.ltb_lt in H. apply Z.ltb_ge. lia. Qed.

Lemma Z_ltb_negtrans (a b c : Z) :
  (a <? b) = false -> (b <? c) = false -> (a <? c) = false.
Proof.
  intros H1 H2. apply Z.ltb_ge in H1, H2. apply Z.ltb_ge. lia.
Qed.

Lemma demo_ten_nonempty :
  ntotal (pack_entry "k" (Demo.world_with Demo.ten_docs)) <> 0.
Proof. vm_compute. discriminate. Qed.

Lemma demo_forty_nonempty :
  ntotal (pack_entry "k" (Demo.world_with Demo.forty_docs)) <> 0.
Proof. vm_compute. discriminate. Qed.

Lemma demo_forty_pre_k :
  Z.min (Z.max (5 * 3) 30)
    (Z.of_nat (length (index (pack_entry "k"
                                (Demo.world_with Demo.forty_docs))))) = 30.
Proof. vm_compute. reflexivity. Qed.

Lemma demo_forty_candidates :
  mapM (Py.index (meta (pack_entry "k" (Demo.world_with Demo.forty_docs))))
    (List.filter (fun i => negb (i =? -1))
       (index_search Demo.collab
          (index (pack_entry "k" (Demo.world_with Demo.forty_docs)))
          (normalize Demo.collab
             (encode Demo.collab [("query: " ++ "ingress")%string]))
          30)) =
  Some (firstn 30 Demo.forty_docs).
Proof. vm_compute. reflexivity. Qed.

Lemma retrieve_dense_recall_witness :
  (trace (fst (retrieve_from_pack Z.ltb Demo.collab "k" "ingress" 5
                 (Demo.world_with Demo.forty_docs))) =
     (trace (Demo.world_with Demo.forty_docs) ++
      [EvEncode [("query: " ++ "ingress")%string]; EvSearch "k" 30;
       EvPredict (map (fun c => ("ingress", text c))
                      (firstn 30 Demo.forty_docs))])%list /\
   snd (retrieve_from_pack Z.ltb Demo.collab "k" "ingress" 5
          (Demo.world_with Demo.forty_docs)) =
     Ok (map context_of
           (map hit_of
              (Py.slice_to 5
                 (rank Z.ltb (firstn 30 Demo.forty_docs)
                    (predict Demo.collab
                       (map (fun c => ("ingress", text c))
                            (firstn 30 Demo.forty_docs)))))),
         map citation_of
           (Py.slice_to 4
              (map hit_of
                 (Py.slice_to 5
                    (rank Z.ltb (firstn 30 Demo.forty_docs)
                       (predict Demo.collab
                          (map (fun c => ("ingress", text c))
                               (firstn 30 Demo.forty_docs))))))))) /\
  (exists cands context citations,
    mapM (Py.index (meta (pack_entry "k" (Demo.world_with Demo.ten_docs))))
         (index_search Demo.collab
            (index (pack_entry "k" (Demo.world_with Demo.ten_docs)))
            (normalize Demo.collab
               (encode Demo.collab [("query: " ++ "ingress")%string])) 10)
      = Some cands /\
    trace (fst (retrieve_from_pack Z.ltb Demo.collab "k" "ingress" 5
                  (Demo.world_with Demo.ten_docs))) =
      (trace (Demo.world_with Demo.ten_docs) ++
       [EvEncode [("query: " ++ "ingress")%string]; EvSearch "k" 10;
        EvPredict (map (fun c => ("ingress", text c)) cands)])%list /\
    length cands = 10%nat /\
    length (predict Demo.collab (map (fun c => ("ingress", text c)) cands))
      = 10%nat /\
    snd (retrieve_from_pack Z.ltb Demo.collab "k" "ingress" 5
           (Demo.world_with Demo.ten_docs)) = Ok (context, citations) /\
    length context = 5%nat /\ length citations = 4%nat).
Proof.
  split.
  - pose proof (proj1 (retrieve_dense_recall Z.ltb Demo.collab "k" "ingress"
                         5 (Demo.world_with Demo.forty_docs)
                         demo_forty_nonempty)) as H.
    cbv zeta in H. rewrite demo_forty_pre_k in H.
    rewrite demo_forty_candidates in H. exact H.
  - apply (proj2 (retrieve_dense_recall Z.ltb Demo.collab "k" "ingress" 5
                    (Demo.world_with Demo.ten_docs) demo_ten_nonempty)).
    + reflexivity.
    + reflexivity.
    + reflexivity.
    + exact demo_search_contract.
    + exact demo_predict_contract.
Defined.

(** On forty documents the recall for [k = 5] asks for thirty neighbours:
    the ten longest documents, which the index does not answer, are not
    ranked, and the best citation is the thirtieth document. *)
Example retrieve_dense_recall_forty :
  match snd (retrieve_from_pack Z.ltb Demo.collab "k" "ingress" 5
               (Demo.world_with Demo.forty_docs)) with
  | Ok (context, citations) =>
      map cit_score citations = [30; 29; 28; 27] /\ length context = 5%nat
  | Raise _ => False
  end.
Proof. vm_compute. split; reflexivity. Qed.

Lemma demo_ten_candidates :
  mapM (Py.index (meta (pack_entry "k" (Demo.world_with Demo.ten_docs))))
    (List.filter (fun i => negb (i =? -1))
       (index_search Demo.collab
          (index (pack_entry "k" (Demo.world_with Demo.ten_docs)))
          (normalize Demo.collab
             (encode Demo.collab [("query: " ++ "ingress")%string]))
          (Z.min (Z.max (5 * 3) 30)
             (Z.of_nat (length (index (pack_entry "k"
                                         (Demo.world_with Demo.ten_docs))))))))
  = Some Demo.ten_docs.
Proof. vm_compute. reflexivity. Qed.



(** On the example, the retrieval with [k = 5] ranks the ten documents by
    text length: 9, 6, then the two of length 5 in recall order, then 4. *)
Example retrieve_ranking_demo :
  match snd (retrieve_from_pack Z.ltb Demo.collab "k" "ingress" 5
               (Demo.world_with Demo.ten_docs)) with
  | Ok (_, citations) => map cit_score citations = [9; 6; 5; 5]
  | Raise _ => False
  end.
Proof. vm_compute. reflexivity. Qed.

Lemma demo_guide_resolves :
  mapM (urljoin Demo.collab "https://docs.example.com/guide/")
       (soup_hrefs Demo.collab "https://docs.example.com/guide/") =
  Some Demo.guide_links.
Proof. vm_compute. reflexivity. Qed.

Lemma demo_guide_parses :
  all_parse Demo.collab "https://docs.example.com/guide/" Demo.guide_links
  = true.
Proof. vm_compute. reflexivity. Qed.

Lemma candidate_links_same_domain_witness :
  exists found links,
    snd (_candidate_links Demo.collab "https://docs.example.com/guide/"
           ["Ingress"] 15 init_world) = Some links /\
    (0 <= 15 ->
     links = firstn (Z.to_nat 15)
               ("https://docs.example.com/guide/" :: found)) /\
    (forall u, In u links ->
       u = "https://docs.example.com/guide/" \/ In u found) /\
    (forall u, In u found <->
       In u Demo.guide_links /\
       (exists pb pu,
          urlparse Demo.collab "https://docs.example.com/guide/" = Some pb /\
          urlparse Demo.collab u = Some pu /\
          Url.netloc pu = Url.netloc pb /\
          (Url.scheme pu = "http" \/ Url.scheme pu = "https")) /\
       (exists kw, In kw ["Ingress"] /\ Py.strip_truthy kw = true /\
                   Py.contains (Py.lower kw) (Py.lower u) = true)).
Proof.
  exact (candidate_links_same_domain Demo.collab
           "https://docs.example.com/guide/" ["Ingress"] 15 init_world
           "https://docs.example.com/guide/" Demo.guide_links
           eq_refl demo_guide_resolves demo_guide_parses).
Defined.

(** C8 as stated fails: [_same_domain] compares the netloc only and
    accepts any http or https candidate.  From the https base page, the
    http link on the same host is kept. *)
Lemma cross_scheme_link_is_kept :
  exists links,
    snd (_candidate_links Demo.collab "https://docs.example.com/guide/"
           ["Ingress"] 15 init_world) = Some links /\
    In "http://docs.example.com/guide/ingress-tls" links /\
    "http://docs.example.com/guide/ingress-tls" <>
      "https://docs.example.com/guide/" /\
    urlparse Demo.collab "http://docs.example.com/guide/ingress-tls" =
      Some {| Url.scheme := "http"; Url.netloc := "docs.example.com" |} /\
    urlparse Demo.collab "https://docs.example.com/guide/" =
      Some {| Url.scheme := "https"; Url.netloc := "docs.example.com" |} /\
    same_origin Demo.collab "https://docs.example.com/guide/"
      "http://docs.example.com/guide/ingress-tls" = false.
Proof.
  eexists. split; [vm_compute; reflexivity|].
  split; [simpl; tauto|]. split; [discriminate|].
  split; [reflexivity|]. split; reflexivity.
Qed.

Lemma candidate_links_shape_witness :
  snd (_candidate_links Demo.collab "https://docs.example.com/guide/"
         ["Ingress"; " "] 2 init_world) =
    match mapM (urljoin Demo.collab "https://docs.example.com/guide/")
               (soup_hrefs Demo.collab "https://docs.example.com/guide/") with
    | Some cands =>
        if all_parse Demo.collab "https://docs.example.com/guide/" cands
        then Some (firstn (Z.to_nat 2)
                     ("https://docs.example.com/guide/" ::
                      Py.dedup
                        (List.filter
                           (kept_link Demo.collab
                              "https://docs.example.com/guide/"
                              ["Ingress"; " "])
                           cands)))
        else None
    | None => None
    end.
Proof.
  assert (Hlimit : 0 <= 2) by lia.
  exact (proj1 (candidate_links_shape Demo.collab
                  "https://docs.example.com/guide/" ["Ingress"; " "] 2
                  init_world "https://docs.example.com/guide/"
                  eq_refl Hlimit)).
Defined.

(** On the guide page every href resolves: the list is the base URL and
    the first link found. *)
Example candidate_links_guide :
  snd (_candidate_links Demo.collab "https://docs.example.com/guide/"
         ["Ingress"; " "] 2 init_world) =
  Some ["https://docs.example.com/guide/";
        "https://docs.example.com/guide/ingress"].
Proof. vm_compute. reflexivity. Qed.

(** On the broken page the second href has a malformed authority:
    [urljoin] raises, the call raises after its one fetch, and the source
    contributes no document, not even its base page. *)
Example candidate_links_bad_href :
  mapM (urljoin Demo.collab "https://docs.example.com/broken/")
       (soup_hrefs Demo.collab "https://docs.example.com/broken/") = None /\
  _candidate_links Demo.collab "https://docs.example.com/broken/"
    ["Ingress"] 15 init_world =
  (log_event (EvGet "https://docs.example.com/broken/") init_world, None) /\
  snd (ingest_stage_a Demo.collab "k"
         ["https://docs.example.com/broken/"] ["Ingress"] 15 init_world) =
    (0, []).
Proof. repeat split; vm_compute; reflexivity. Qed.

(** C9 as stated fails on two counts.  With the keyword ["Ingress"] the
    code keeps the http link of the same host, which is not same-origin
    with the https base; with the only keyword blank, the code keeps the
    base URL alone, although every URL contains the empty string. *)
Lemma candidate_links_differ_from_spec :
  (snd (_candidate_links Demo.collab "https://docs.example.com/guide/"
          ["Ingress"] 15 init_world) =
     Some ["https://docs.example.com/guide/";
           "https://docs.example.com/guide/ingress";
           "http://docs.example.com/guide/ingress-tls"] /\
   spec_candidate_links Demo.collab "https://docs.example.com/guide/"
     ["Ingress"] 15 Demo.guide_links =
     ["https://docs.example.com/guide/";
      "https://docs.example.com/guide/ingress"]) /\
  (snd (_candidate_links Demo.collab "https://docs.example.com/guide/"
          [""] 15 init_world) =
     Some ["https://docs.example.com/guide/"] /\
   spec_candidate_links Demo.collab "https://docs.example.com/guide/"
     [""] 15 Demo.guide_links =
     ["https://docs.example.com/guide/";
      "https://docs.example.com/guide/ingress";
      "https://docs.example.com/guide/install"]).
Proof. repeat split; vm_compute; reflexivity. Qed.

(** ** The manifest lifecycle *)

Lemma qltb_true (a b : Q) : PyFloat.ltb a b = true -> (a < b)%Q.
Proof.
  unfold PyFloat.ltb. intros H. apply negb_true_iff in H.
  apply Qnot_le_lt. intros Hle. apply Qle_bool_iff in Hle. congruence.
Qed.

Lemma qltb_false (a b : Q) : PyFloat.ltb a b = false -> (b <= a)%Q.
Proof.
  unfold PyFloat.ltb. intros H. apply negb_false_iff in H.
  apply Qle_bool_iff. exact H.
Qed.

(** [min(1.0, max(c, 0.6))] on a completeness between 0 and 1. *)
Lemma enrich_bounds (c : Q) :
  (0 <= c <= 1)%Q ->
  (c <= PyFloat.min 1 (PyFloat.max c 0.6))%Q /\
  (0.6 <= PyFloat.min 1 (PyFloat.max c 0.6))%Q /\
  (0 <= PyFloat.min 1 (PyFloat.max c 0.6) <= 1)%Q.
Proof.
  intros [H0 H1]. unfold PyFloat.min, PyFloat.max.
  destruct (PyFloat.ltb c 0.6) eqn:E1.
  - apply qltb_true in E1.
    destruct (PyFloat.ltb 0.6 1) eqn:E2; [|apply qltb_false in E2]; lra.
  - apply qltb_false in E1.
    destruct (PyFloat.ltb c 1) eqn:E2;
      [apply qltb_true in E2|apply qltb_false in E2]; lra.
Qed.

Section Lifecycle.
Context {vec score : Type}.
Variable score_lt : score -> score -> bool.
Variable C : Collab vec score.

Lemma retrieve_frame (pack_key query : string) (k : Z) (w : World vec) :
  _packs (fst (retrieve_from_pack score_lt C pack_key query k w)) = _packs w /\
  tasks (fst (retrieve_from_pack score_lt C pack_key query k w)) = tasks w.
Proof.
  unfold retrieve_from_pack.
  destruct (ensure_index_frame pack_key w) as (H1 & _ & H3 & _).
  destruct (ntotal _ =? 0); [simpl; auto|].
  destruct (mapM _ _); simpl; auto.
Qed.

Lemma get_index_stats_frame (pack_key : string) (w : World vec) :
  _packs (fst (get_index_stats pack_key w)) = _packs w /\
  tasks (fst (get_index_stats pack_key w)) = tasks w.
Proof.
  unfold get_index_stats. simpl.
  destruct (ensure_index_frame pack_key w) as (H1 & _ & H3 & _). auto.
Qed.

Lemma bg_ingest_packs (t : BgTask) (w : World vec) :
  _packs (_bg_ingest C t w) =
  if bg_count C t w =? 0 then _packs w
  else alter (with_completeness (fun c => PyFloat.min 1 (PyFloat.max c 0.6)))
             (bg_key t) (_packs w).
Proof.
  unfold _bg_ingest, bg_count.
  pose proof (ingest_stage_a_frame C (bg_key t) (bg_sources t) (bg_subs t)
                (bg_limit t) w) as (F1 & _ & _).
  destruct (ingest_stage_a C (bg_key t) (bg_sources t) (bg_subs t)
              (bg_limit t) w) as [w1 [count urls]].
  simpl in *. destruct (log_ingest_frame (bg_key t) urls w1) as [L1 _].
  destruct (count =? 0); simpl; congruence.
Qed.

Lemma bg_ingest_tasks (t : BgTask) (w : World vec) :
  tasks (_bg_ingest C t w) = tasks w.
Proof.
  unfold _bg_ingest.
  pose proof (ingest_stage_a_frame C (bg_key t) (bg_sources t) (bg_subs t)
                (bg_limit t) w) as (_ & _ & F3).
  destruct (ingest_stage_a C (bg_key t) (bg_sources t) (bg_subs t)
              (bg_limit t) w) as [w1 [count urls]].
  simpl in *. destruct (log_ingest_frame (bg_key t) urls w1) as [_ L2].
  destruct (count =? 0); simpl; congruence.
Qed.

Lemma ensure_finish_packs (d : TopicDecision) (lg : string) (w : World vec) :
  exists q : Q, (q = 0 \/ q = 0.3)%Q /\
    _packs (fst (ensure_finish C d lg w)) =
    alter (with_completeness (fun _ => q)) (decision_key d lg) (_packs w).
Proof.
  unfold ensure_finish.
  pose proof (ingest_stage_a_frame C (decision_key d lg)
                (decision_candidate_sources d) (decision_subtopics d) 15 w)
    as (F1 & _ & _).
  destruct (ingest_stage_a C (decision_key d lg)
              (decision_candidate_sources d) (decision_subtopics d) 15 w)
    as [w1 [count urls]].
  simpl in *. destruct (log_ingest_frame (decision_key d lg) urls w1) as [L1 _].
  exists (if count =? 0 then 0 else 0.3)%Q.
  split; [destruct (count =? 0); auto|]. congruence.
Qed.

Lemma ensure_finish_tasks (d : TopicDecision) (lg : string) (w : World vec) :
  tasks (fst (ensure_finish C d lg w)) =
  (tasks w ++ [{| bg_key := decision_key d lg;
                  bg_sources := decision_candidate_sources d;
                  bg_subs := decision_subtopics d; bg_limit := 30 |}])%list.
Proof.
  unfold ensure_finish.
  pose proof (ingest_stage_a_frame C (decision_key d lg)
                (decision_candidate_sources d) (decision_subtopics d) 15 w)
    as (_ & _ & F3).
  destruct (ingest_stage_a C (decision_key d lg)
              (decision_candidate_sources d) (decision_subtopics d) 15 w)
    as [w1 [count urls]].
  simpl in *. destruct (log_ingest_frame (decision_key d lg) urls w1) as [_ L2].
  congruence.
Qed.

End Lifecycle.

(** ** The lifecycle invariant and the monotony of completeness *)

Lemma alter_completeness_lookup (f : Q -> Q) (k j : string)
    (p : gmap string Manifest) (m' : Manifest) :
  alter (with_completeness f) k p !! j = Some m' ->
  exists m, p !! j = Some m /\
            ((k = j /\ m' = with_completeness f m) \/ (k <> j /\ m' = m)).
Proof.
  destruct (decide (k = j)) as [->|Hne].
  - rewrite lookup_alter_eq. destruct (p !! j) as [m|]; simpl; [|discriminate].
    intros [= <-]. eauto.
  - rewrite lookup_alter_ne by exact Hne. eauto.
Qed.

Lemma alter_completeness_is_Some (f : Q -> Q) (k j : string)
    (p : gmap string Manifest) :
  is_Some (p !! j) -> is_Some (alter (with_completeness f) k p !! j).
Proof. intros H. apply lookup_alter_is_Some. exact H. Qed.

Lemma frame_keys_remove (pre post : list (TopicDecision * string))
    (x : TopicDecision * string) :
  List.NoDup (map frame_key (pre ++ x :: post)) ->
  List.NoDup (map frame_key (pre ++ post)) /\
  ~ In (frame_key x) (map frame_key (pre ++ post)).
Proof.
  rewrite !map_app. simpl. intros H. split.
  - eapply List.NoDup_remove_1. exact H.
  - eapply List.NoDup_remove_2. exact H.
Qed.

Lemma In_remove_middle {A} (pre post : list A) (x y : A) :
  In y (pre ++ post) -> In y (pre ++ x :: post).
Proof.
  intros H. apply in_app_or in H. apply in_or_app. simpl. tauto.
Qed.

Section LifecycleInvariant.
Context {vec score : Type}.
Variable score_lt : score -> score -> bool.
Variable C : Collab vec score.

Local Abbreviation inv := (@lifecycle_inv vec).
Local Abbreviation stepC := (step score_lt C).

Lemma inv_init : inv init_config.
Proof.
  unfold lifecycle_inv. simpl. split; [|split; [|split]].
  - intros f [].
  - constructor.
  - intros t [].
  - intros key m H. rewrite lookup_empty in H. discriminate.
Qed.

(** Steps that leave the manifests, the tasks and the suspended calls. *)
Lemma inv_same (c : Config) (w' : World vec) :
  _packs w' = _packs (world c) -> tasks w' = tasks (world c) ->
  inv c -> inv {| world := w'; suspended := suspended c |}.
Proof.
  intros Hp Ht (I1 & I2 & I3 & I4). unfold lifecycle_inv. simpl.
  rewrite Hp, Ht. auto.
Qed.

Lemma inv_begin (c : Config) (d : TopicDecision) (lg : string) :
  _packs (world c) !! decision_key d lg = None ->
  inv c ->
  inv {| world := ensure_begin d lg (world c);
         suspended := (d, lg) :: suspended c |}.
Proof.
  intros Hnew (I1 & I2 & I3 & I4). unfold lifecycle_inv. simpl.
  assert (Hfresh : forall f, In f (suspended c) ->
                             decision_key d lg <> frame_key f).
  { intros f Hf Heq. destruct (I1 f Hf) as (m & Hm & _).
    rewrite <- Heq in Hm. congruence. }
  split; [|split; [|split]].
  - intros f [<-|Hf].
    + unfold frame_key. simpl. rewrite lookup_insert_eq. eauto.
    + rewrite lookup_insert_ne by (apply Hfresh; exact Hf). apply I1, Hf.
  - constructor; [|exact I2].
    intros Hin. apply in_map_iff in Hin as (f & Hk & Hf).
    apply (Hfresh f Hf). symmetry. exact Hk.
  - intros t Ht. destruct (I3 t Ht) as [[m Hm] Hn]. split.
    + rewrite lookup_insert_ne; [eauto|]. intros Heq. congruence.
    + intros [Heq|Hin]; [|contradiction].
      unfold frame_key in Heq. simpl in Heq. congruence.
  - intros key m H.
    destruct (decide (decision_key d lg = key)) as [<-|Hne].
    + rewrite lookup_insert_eq in H. injection H as <-. simpl. lra.
    + rewrite lookup_insert_ne in H by exact Hne. apply (I4 key m H).
Qed.

Lemma inv_resume (c : Config) (pre post : list (TopicDecision * string))
    (d : TopicDecision) (lg : string) :
  suspended c = (pre ++ (d, lg) :: post)%list ->
  inv c ->
  inv {| world := fst (ensure_finish C d lg (world c));
         suspended := (pre ++ post)%list |}.
Proof.
  intros Hsus (I1 & I2 & I3 & I4). unfold lifecycle_inv. simpl.
  destruct (ensure_finish_packs C d lg (world c)) as (q & Hq & Hp).
  rewrite Hp, ensure_finish_tasks. clear Hp.
  rewrite Hsus in I1, I2, I3.
  destruct (frame_keys_remove pre post (d, lg) I2) as [Hnd Hnot].
  change (frame_key (d, lg)) with (decision_key d lg) in Hnot.
  split; [|split; [|split]].
  - intros f Hf.
    destruct (I1 f (In_remove_middle pre post (d, lg) f Hf)) as (m & Hm & H0).
    exists m. split; [|exact H0].
    rewrite lookup_alter_ne; [exact Hm|].
    intros Heq. apply Hnot. rewrite Heq. apply in_map. exact Hf.
  - exact Hnd.
  - intros t Ht. apply in_app_or in Ht as [Ht|[<-|[]]].
    + split; [apply alter_completeness_is_Some, (I3 t Ht)|].
      intros Hin. destruct (I3 t Ht) as [_ Hn]. apply Hn.
      apply in_map_iff in Hin as (f & Hk & Hf). apply in_map_iff.
      exists f. split; [exact Hk|]. apply In_remove_middle. exact Hf.
    + simpl. split; [|exact Hnot].
      apply alter_completeness_is_Some.
      destruct (I1 (d, lg)) as (m & Hm & _); [apply in_elt|]. eauto.
  - intros key m H. apply alter_completeness_lookup in H
      as (m0 & Hm0 & [[_ ->]|[_ ->]]); simpl.
    + destruct Hq as [->| ->]; lra.
    + apply (I4 key m0 Hm0).
Qed.

Lemma inv_bg (c : Config) (pre post : list BgTask) (t : BgTask) :
  tasks (world c) = (pre ++ t :: post)%list ->
  inv c ->
  inv {| world := _bg_ingest C t (set_tasks (pre ++ post) (world c));
         suspended := suspended c |}.
Proof.
  intros Htasks (I1 & I2 & I3 & I4). unfold lifecycle_inv. simpl.
  rewrite bg_ingest_packs, bg_ingest_tasks. simpl.
  rewrite Htasks in I3.
  assert (Hsub : forall t', In t' (pre ++ post) -> In t' (pre ++ t :: post)).
  { intros t'. apply In_remove_middle. }
  destruct (bg_count C t (set_tasks (pre ++ post) (world c)) =? 0).
  { split; [exact I1|]. split; [exact I2|]. split; [|exact I4].
    intros t' Ht'. apply (I3 t' (Hsub t' Ht')). }
  split; [|split; [|split]].
  - intros f Hf. destruct (I1 f Hf) as (m & Hm & H0).
    exists m. split; [|exact H0].
    rewrite lookup_alter_ne; [exact Hm|].
    intros Heq. destruct (I3 t (in_elt t pre post)) as [_ Hn].
    apply Hn. rewrite Heq. apply in_map. exact Hf.
  - exact I2.
  - intros t' Ht'. destruct (I3 t' (Hsub t' Ht')) as [Hs Hn].
    split; [apply alter_completeness_is_Some, Hs|exact Hn].
  - intros key m H. apply alter_completeness_lookup in H
      as (m0 & Hm0 & [[_ ->]|[_ ->]]); simpl.
    + apply (enrich_bounds _ (I4 _ _ Hm0)).
    + apply (I4 key m0 Hm0).
Qed.

Lemma inv_step (c c' : Config) : inv c -> stepC c c' -> inv c'.
Proof.
  intros Hinv Hstep. destruct Hstep.
  - apply inv_same; [| |exact Hinv];
      unfold ensure_pack_for_decision; destruct H as [m ->]; reflexivity.
  - apply inv_begin; assumption.
  - apply inv_resume; assumption.
  - apply inv_bg; assumption.
  - apply inv_same; [| |exact Hinv]; apply retrieve_frame.
  - apply inv_same; [| |exact Hinv]; apply get_index_stats_frame.
Qed.

Lemma inv_reachable (c : Config) : reachable score_lt C c -> inv c.
Proof.
  unfold reachable. intros H.
  eapply (rtc_ind_r (fun c => lifecycle_inv c)); [apply inv_init| |exact H].
  intros y z _ Hs IH. eapply inv_step; eassumption.
Qed.

End LifecycleInvariant.

Section CompletenessLifecycle.
Context {vec score : Type}.
Variable score_lt : score -> score -> bool.
Variable C : Collab vec score.

Lemma step_monotone (c c' : Config) (key : string) (m : Manifest) :
  lifecycle_inv c -> step score_lt C c c' ->
  _packs (world c) !! key = Some m ->
  exists m', _packs (world c') !! key = Some m' /\
             (completeness m <= completeness m')%Q.
Proof.
  intros (I1 & I2 & I3 & I4) Hstep Hm. destruct Hstep; cbn [world].
  - unfold ensure_pack_for_decision. destruct H as [m0 ->]. simpl.
    exists m. split; [exact Hm|lra].
  - exists m. split; [|lra]. unfold ensure_begin. simpl.
    rewrite lookup_insert_ne; [exact Hm|]. intros Heq. congruence.
  - destruct (ensure_finish_packs C d lg (world c)) as (q & Hq & ->).
    destruct (decide (decision_key d lg = key)) as [<-|Hne].
    + rewrite lookup_alter_eq, Hm. simpl. eexists. split; [reflexivity|].
      destruct (I1 (d, lg)) as (m0 & Hm0 & H0); [rewrite H; apply in_elt|].
      change (frame_key (d, lg)) with (decision_key d lg) in Hm0.
      assert (m0 = m) by congruence. subst m0. simpl. rewrite H0.
      destruct Hq as [->| ->]; lra.
    + rewrite lookup_alter_ne by exact Hne. exists m. split; [exact Hm|lra].
  - rewrite bg_ingest_packs. simpl.
    destruct (bg_count C t (set_tasks (pre ++ post) (world c)) =? 0).
    { exists m. split; [exact Hm|lra]. }
    destruct (decide (bg_key t = key)) as [<-|Hne].
    + rewrite lookup_alter_eq, Hm. simpl. eexists. split; [reflexivity|].
      simpl. apply (enrich_bounds _ (I4 _ _ Hm)).
    + rewrite lookup_alter_ne by exact Hne. exists m. split; [exact Hm|lra].
  - destruct (retrieve_frame score_lt C pack_key query k (world c)) as [-> _].
    exists m. split; [exact Hm|lra].
  - destruct (get_index_stats_frame pack_key (world c)) as [-> _].
    exists m. split; [exact Hm|lra].
Qed.

(** C3 (amended): in every reachable configuration, no step lowers the
    completeness of a manifest (across begin and resumption of a first
    build, enrichment runs, retrievals and statistics reads); and the run
    of a scheduled enrichment, whose key always has a manifest, never
    lowers the completeness, raises it to at least 0.6 when it ingests at
    least one document, and leaves the manifest as it was when it ingests
    none. *)
Theorem completeness_lifecycle (c : Config) :
  reachable score_lt C c ->
  (forall (c' : Config) (key : string) (m : Manifest),
      step score_lt C c c' ->
      _packs (world c) !! key = Some m ->
      exists m', _packs (world c') !! key = Some m' /\
                 (completeness m <= completeness m')%Q) /\
  (forall (pre post : list BgTask) (t : BgTask),
      tasks (world c) = (pre ++ t :: post)%list ->
      exists m m',
        _packs (world c) !! bg_key t = Some m /\
        _packs (_bg_ingest C t (set_tasks (pre ++ post) (world c)))
          !! bg_key t = Some m' /\
        (completeness m <= completeness m')%Q /\
        (bg_count C t (set_tasks (pre ++ post) (world c)) <> 0 ->
         (0.6 <= completeness m')%Q) /\
        (bg_count C t (set_tasks (pre ++ post) (world c)) = 0 -> m' = m)).
Proof.
  intros Hreach. pose proof (inv_reachable score_lt C c Hreach) as Hinv.
  split.
  - intros c' key m Hstep Hm. eapply step_monotone; eassumption.
  - intros pre post t Htasks. destruct Hinv as (I1 & I2 & I3 & I4).
    destruct (I3 t) as [[m Hm] _]; [rewrite Htasks; apply in_elt|].
    exists m. rewrite bg_ingest_packs. simpl.
    destruct (bg_count C t (set_tasks (pre ++ post) (world c)) =? 0) eqn:E.
    + apply Z.eqb_eq in E. exists m. split; [exact Hm|]. split; [exact Hm|].
      split; [lra|]. split; [intros Hc; contradiction|reflexivity].
    + apply Z.eqb_neq in E. rewrite lookup_alter_eq, Hm. simpl.
      eexists. split; [reflexivity|]. split; [reflexivity|]. simpl.
      destruct (enrich_bounds _ (I4 _ _ Hm)) as (B1 & B2 & _).
      split; [exact B1|]. split; [intros _; exact B2|].
      intros Hc; contradiction.
Qed.

End CompletenessLifecycle.

Lemma demo_built_reachable (d : TopicDecision) :
  reachable Z.ltb Demo.collab (Demo.built d).
Proof.
  unfold reachable.
  eapply rtc_l; [apply (step_ensure_begin Z.ltb Demo.collab init_config d "en");
                 apply lookup_empty|].
  eapply rtc_l; [|apply rtc_refl].
  apply (step_ensure_resume Z.ltb Demo.collab (Demo.started d) [] d "en" []).
  reflexivity.
Qed.

Lemma demo_guide_tasks :
  tasks (world (Demo.built Demo.guide)) =
  ([] ++ Demo.enrichment Demo.guide :: [])%list.
Proof. vm_compute. reflexivity. Qed.

Lemma completeness_lifecycle_witness :
  exists m m',
    _packs (world (Demo.built Demo.guide))
      !! bg_key (Demo.enrichment Demo.guide) = Some m /\
    _packs (_bg_ingest Demo.collab (Demo.enrichment Demo.guide)
              (set_tasks ([] ++ []) (world (Demo.built Demo.guide))))
      !! bg_key (Demo.enrichment Demo.guide) = Some m' /\
    (completeness m <= completeness m')%Q /\
    (bg_count Demo.collab (Demo.enrichment Demo.guide)
       (set_tasks ([] ++ []) (world (Demo.built Demo.guide))) <> 0 ->
     (0.6 <= completeness m')%Q) /\
    (bg_count Demo.collab (Demo.enrichment Demo.guide)
       (set_tasks ([] ++ []) (world (Demo.built Demo.guide))) = 0 -> m' = m).
Proof.
  exact (proj2 (completeness_lifecycle Z.ltb Demo.collab
                  (Demo.built Demo.guide) (demo_built_reachable Demo.guide))
               [] [] (Demo.enrichment Demo.guide) demo_guide_tasks).
Defined.

(** On the example the first build leaves 0.3 and the enrichment, which
    ingests three pages, raises it to 0.6. *)
Example enrichment_demo :
  completeness <$>
    (_packs (world (Demo.built Demo.guide)) !! decision_key Demo.guide "en")
    = Some 0.3%Q /\
  completeness <$>
    (_packs (_bg_ingest Demo.collab (Demo.enrichment Demo.guide)
               (set_tasks [] (world (Demo.built Demo.guide))))
       !! decision_key Demo.guide "en") = Some 0.6%Q.
Proof. split; vm_compute; reflexivity. Qed.

(** C3 as stated fails: [_bg_ingest] writes the completeness only
    [if count].  When the only source cannot be fetched, the first build
    leaves completeness 0 and the enrichment, once complete, leaves it at
    0, below 0.6. *)
Lemma enrichment_without_documents :
  reachable Z.ltb Demo.collab (Demo.built Demo.offline) /\
  tasks (world (Demo.built Demo.offline)) = [Demo.enrichment Demo.offline] /\
  exists m',
    _packs (_bg_ingest Demo.collab (Demo.enrichment Demo.offline)
              (set_tasks [] (world (Demo.built Demo.offline))))
      !! decision_key Demo.offline "en" = Some m' /\
    (completeness m' < 0.6)%Q.
Proof.
  split; [apply demo_built_reachable|].
  split; [vm_compute; reflexivity|].
  eexists. split; [vm_compute; reflexivity|]. reflexivity.
Qed.

(* ================================================================== *)
(** * Further properties of the code *)
(* ================================================================== *)

(** ** The format of a pack key *)

Lemma sha_round_length (st : list Z) (kw : Z * Z) :
  length st = 8%nat -> length (Sha256.round st kw) = 8%nat.
Proof.
  destruct st as [|a [|b [|c [|d [|e [|f [|g [|h [|i st]]]]]]]]];
    simpl; intros H; try discriminate H; reflexivity.
Qed.

Lemma sha_rounds_length (kws : list (Z * Z)) (st : list Z) :
  length st = 8%nat -> length (fold_left Sha256.round kws st) = 8%nat.
Proof.
  revert st. induction kws as [|kw kws IH]; intros st H; simpl; [exact H|].
  apply IH, sha_round_length, H.
Qed.

Lemma sha_compress_length (h block : list Z) :
  length h = 8%nat -> length (Sha256.compress h block) = 8%nat.
Proof.
  intros H. unfold Sha256.compress.
  rewrite length_map, length_combine, sha_rounds_length by exact H.
  rewrite H. reflexivity.
Qed.

Lemma sha_digest_length (msg : list Z) : length (Sha256.digest msg) = 8%nat.
Proof.
  unfold Sha256.digest.
  generalize (Sha256.blocks
                (length (Sha256.be_words (length (Sha256.pad msg)) (Sha256.pad msg)))
                (Sha256.be_words (length (Sha256.pad msg)) (Sha256.pad msg))).
  intros bs. assert (H : length Sha256.H0 = 8%nat) by reflexivity.
  revert H. generalize Sha256.H0.
  induction bs as [|b bs IH]; intros h H; simpl; [exact H|].
  apply IH, sha_compress_length, H.
Qed.

Lemma hex_words_length (ws : list Z) :
  length (concat (map Sha256.hex_word ws)) = (8 * length ws)%nat.
Proof.
  induction ws as [|x ws IH]; [reflexivity|].
  cbn [map concat]. rewrite length_app, IH.
  unfold Sha256.hex_word. rewrite length_map, length_seq. simpl. lia.
Qed.

Lemma string_of_list_ascii_length (l : list ascii) :
  String.length (string_of_list_ascii l) = length l.
Proof. induction l as [|c l IH]; simpl; [reflexivity|]. rewrite IH. reflexivity. Qed.

Lemma hexdigest_length (s : string) :
  String.length (Sha256.hexdigest s) = 64%nat.
Proof.
  unfold Sha256.hexdigest.
  rewrite string_of_list_ascii_length, hex_words_length, sha_digest_length.
  reflexivity.
Qed.

Lemma key_nonempty (tech version : option string) (lang : string)
    (sources : list string) :
  _key_from_sources tech version lang sources <> "".
Proof.
  intros H. pose proof (hexdigest_length (key_raw tech version lang sources)) as L.
  unfold _key_from_sources in H. rewrite H in L. discriminate L.
Qed.

Lemma decision_key_nonempty (d : TopicDecision) (lg : string) :
  decision_key d lg <> "".
Proof. unfold decision_key. apply key_nonempty. Qed.

(** X1: a pack key is always a string of exactly 64 characters, whatever
    the topic descriptor; in particular it is never the empty string. *)
Theorem key_from_sources_length
    (tech version : option string) (lang : string) (sources : list string) :
  String.length (_key_from_sources tech version lang sources) = 64%nat /\
  _key_from_sources tech version lang sources <> "".
Proof. split; [apply hexdigest_length|apply key_nonempty]. Qed.

(** ** The pack cache on a new key *)

Section FirstBuild.
Context {vec score : Type}.
Variable C : Collab vec score.

Lemma ensure_finish_unfold (d : TopicDecision) (lg : string) (w : World vec) :
  ensure_finish C d lg w =
  (set_tasks
     (tasks w ++ [enrichment_task d lg])
     (set_completeness (decision_key d lg)
        (fun _ => if fst (snd (ingest_stage_a C (decision_key d lg)
                                 (decision_candidate_sources d)
                                 (decision_subtopics d) 15 w)) =? 0
                  then 0 else 0.3)%Q
        (_log_ingest (decision_key d lg)
           (snd (snd (ingest_stage_a C (decision_key d lg)
                        (decision_candidate_sources d)
                        (decision_subtopics d) 15 w)))
           (fst (ingest_stage_a C (decision_key d lg)
                   (decision_candidate_sources d)
                   (decision_subtopics d) 15 w)))),
   (decision_key d lg,
    if fst (snd (ingest_stage_a C (decision_key d lg)
                   (decision_candidate_sources d)
                   (decision_subtopics d) 15 w)) =? 0
    then "building" else "ready")).
Proof.
  unfold ensure_finish, enrichment_task.
  pose proof (ingest_stage_a_frame C (decision_key d lg)
                (decision_candidate_sources d) (decision_subtopics d) 15 w)
    as (_ & _ & F3).
  destruct (ingest_stage_a C (decision_key d lg)
              (decision_candidate_sources d) (decision_subtopics d) 15 w)
    as [w1 [count urls]].
  simpl in *. destruct (log_ingest_frame (decision_key d lg) urls w1) as [_ L2].
  rewrite L2, F3. reflexivity.
Qed.

Lemma ensure_begin_packs (d : TopicDecision) (lg : string) (w : World vec) :
  _packs (ensure_begin d lg w) =
  <[decision_key d lg := built_manifest d lg 0]> (_packs w).
Proof. reflexivity. Qed.

Lemma ensure_pack_new_packs (d : TopicDecision) (lg : string) (w : World vec) :
  _packs w !! decision_key d lg = None ->
  _packs (fst (ensure_pack_for_decision C d lg w)) =
  <[decision_key d lg := built_manifest d lg (sync_count C d lg w)]> (_packs w).
Proof.
  intros Hnew. unfold ensure_pack_for_decision. rewrite Hnew.
  rewrite ensure_finish_unfold. cbn [fst _packs set_tasks set_completeness set_packs].
  destruct (log_ingest_frame (decision_key d lg)
              (snd (snd (ingest_stage_a C (decision_key d lg)
                           (decision_candidate_sources d)
                           (decision_subtopics d) 15 (ensure_begin d lg w))))
              (fst (ingest_stage_a C (decision_key d lg)
                      (decision_candidate_sources d)
                      (decision_subtopics d) 15 (ensure_begin d lg w))))
    as [-> _].
  destruct (ingest_stage_a_frame C (decision_key d lg)
              (decision_candidate_sources d) (decision_subtopics d) 15
              (ensure_begin d lg w)) as (-> & _ & _).
  rewrite ensure_begin_packs, alter_insert_eq. reflexivity.
Qed.

(** After a call the derived key has a manifest, new key or not. *)
Lemma ensure_pack_registers (d : TopicDecision) (lg : string) (w : World vec) :
  is_Some (_packs (fst (ensure_pack_for_decision C d lg w)) !! decision_key d lg).
Proof.
  destruct (_packs w !! decision_key d lg) as [m|] eqn:E.
  - unfold ensure_pack_for_decision. rewrite E. simpl. rewrite E. eauto.
  - rewrite (ensure_pack_new_packs d lg w E), lookup_insert_eq. eauto.
Qed.

Lemma ensure_pack_key (d : TopicDecision) (lg : string) (w : World vec) :
  fst (snd (ensure_pack_for_decision C d lg w)) = decision_key d lg.
Proof.
  unfold ensure_pack_for_decision.
  destruct (_packs w !! decision_key d lg); [reflexivity|].
  rewrite ensure_finish_unfold. reflexivity.
Qed.

(** X2: on a key without manifest, [ensure_pack_for_decision] returns the
    key with status ["ready"] when its synchronous ingest got at least one
    document and ["building"] otherwise; it records a manifest with the
    tech, the version (["latest"] when absent), the language, the source
    list as given, ttl 14 and completeness 0.3 or 0 accordingly; it leaves
    every other manifest as it was and appends exactly one enrichment task,
    with a cap of 30 pages per source. *)
Theorem ensure_pack_new_key (d : TopicDecision) (lg : string) (w : World vec) :
  _packs w !! decision_key d lg = None ->
  snd (ensure_pack_for_decision C d lg w) =
    (decision_key d lg,
     if sync_count C d lg w =? 0 then "building" else "ready") /\
  _packs (fst (ensure_pack_for_decision C d lg w)) !! decision_key d lg =
    Some (built_manifest d lg (sync_count C d lg w)) /\
  (forall k, k <> decision_key d lg ->
     _packs (fst (ensure_pack_for_decision C d lg w)) !! k = _packs w !! k) /\
  tasks (fst (ensure_pack_for_decision C d lg w)) =
    (tasks w ++ [enrichment_task d lg])%list.
Proof.
  intros Hnew. rewrite (ensure_pack_new_packs d lg w Hnew).
  split; [|split; [|split]].
  - unfold ensure_pack_for_decision. rewrite Hnew.
    rewrite ensure_finish_unfold. reflexivity.
  - apply lookup_insert_eq.
  - intros k Hk. apply lookup_insert_ne. congruence.
  - unfold ensure_pack_for_decision. rewrite Hnew.
    rewrite ensure_finish_tasks. reflexivity.
Qed.

(** X3: a decision that has the same tech, the same version once absent
    versions are read as ["latest"], and the same sources in any order as
    an earlier decision is a cache hit after it: the call returns the
    earlier key with status ["ready"] and changes nothing. *)
Theorem ensure_pack_reordered_hit
    (d d' : TopicDecision) (lg : string) (w : World vec) :
  decision_tech d' = decision_tech d ->
  Py.or_str (decision_version d') "latest" =
    Py.or_str (decision_version d) "latest" ->
  Permutation (decision_candidate_sources d') (decision_candidate_sources d) ->
  ensure_pack_for_decision C d' lg (fst (ensure_pack_for_decision C d lg w)) =
  (fst (ensure_pack_for_decision C d lg w), (decision_key d lg, "ready")).
Proof.
  intros Ht Hv Hs.
  assert (Hk : decision_key d' lg = decision_key d lg).
  { unfold decision_key, _key_from_sources, key_raw.
    rewrite Ht, Hv, (sorted_sources_perm _ _ Hs). reflexivity. }
  destruct (ensure_pack_registers d lg w) as [m Hm].
  unfold ensure_pack_for_decision at 1. rewrite Hk, Hm. reflexivity.
Qed.

(** X4: on a new key and a decision without candidate sources, the call
    changes the world by the new manifest, with completeness 0, and the
    scheduled enrichment only: no collaborator is called, no index is
    created, the ingest log is as before; the status is ["building"]. *)
Theorem ensure_pack_without_sources
    (d : TopicDecision) (lg : string) (w : World vec) :
  decision_candidate_sources d = [] ->
  _packs w !! decision_key d lg = None ->
  ensure_pack_for_decision C d lg w =
  ({| _packs := <[decision_key d lg := built_manifest d lg 0]> (_packs w);
      _ingest_log := _ingest_log w;
      _pack_indexes := _pack_indexes w;
      tasks := (tasks w ++ [enrichment_task d lg])%list;
      trace := trace w |},
   (decision_key d lg, "building")).
Proof.
  intros Hsrc Hnew. unfold ensure_pack_for_decision. rewrite Hnew.
  rewrite ensure_finish_unfold. rewrite Hsrc.
  cbn [ingest_stage_a fst snd _log_ingest Z.eqb].
  unfold set_tasks, set_completeness, set_packs. simpl.
  rewrite alter_insert_eq. unfold built_manifest, with_completeness. simpl.
  rewrite Hsrc. reflexivity.
Qed.

End FirstBuild.

(** ** Ingestion: what a run returns and what it writes *)

Lemma last_n_length {A} (n : nat) (l : list A) :
  (length (Py.last_n n l) <= n)%nat.
Proof. unfold Py.last_n. rewrite length_skipn. lia. Qed.

Lemma last_n_In {A} (n : nat) (l : list A) (x : A) :
  In x (Py.last_n n l) -> In x l.
Proof.
  unfold Py.last_n. intros H.
  rewrite <- (firstn_skipn (length l - n) l). apply in_or_app. right. exact H.
Qed.

Lemma last_n_NoDup {A} (n : nat) (l : list A) :
  List.NoDup l -> List.NoDup (Py.last_n n l).
Proof.
  unfold Py.last_n. intros H.
  rewrite <- (firstn_skipn (length l - n) l) in H.
  apply List.NoDup_app_remove_l in H. exact H.
Qed.

Lemma substring_length (n : nat) (s : string) :
  (String.length (String.substring 0 n s) <= n)%nat.
Proof.
  revert s. induction n as [|n IH]; intros [|c s]; simpl; try lia.
  specialize (IH s). lia.
Qed.

Section IngestRun.
Context {vec score : Type}.
Variable C : Collab vec score.

Lemma ensure_index_other (pack_key k : string) (w : World vec) :
  k <> pack_key ->
  _pack_indexes (_ensure_index pack_key w) !! k = _pack_indexes w !! k.
Proof.
  intros Hk. unfold _ensure_index.
  destruct (_pack_indexes w !! pack_key); [reflexivity|].
  simpl. apply lookup_insert_ne. congruence.
Qed.

Lemma ensure_index_entry (pack_key : string) (w : World vec) :
  _pack_indexes (_ensure_index pack_key w) !! pack_key =
  Some (pack_entry pack_key w).
Proof.
  unfold _ensure_index, pack_entry.
  destruct (_pack_indexes w !! pack_key) eqn:E; simpl.
  - exact E.
  - apply lookup_insert_eq.
Qed.

Lemma pack_entry_ensure_any (pack_key k : string) (w : World vec) :
  pack_entry k (_ensure_index pack_key w) = pack_entry k w.
Proof.
  destruct (decide (k = pack_key)) as [->|Hk]; [apply pack_entry_ensure|].
  unfold pack_entry. rewrite ensure_index_other by exact Hk. reflexivity.
Qed.

(** What [upsert_documents] writes: both lists of the pack grow at the
    end, the other packs are not touched. *)
Lemma upsert_entry (pack_key : string) (docs : list Doc) (w : World vec) :
  _pack_indexes (upsert_documents C pack_key docs w) !! pack_key =
  Some {| index := index (pack_entry pack_key w) ++
                   normalize C (encode C (map (fun d => "passage: " ++ text d) docs));
          meta := meta (pack_entry pack_key w) ++ docs |}.
Proof.
  unfold upsert_documents. simpl.
  rewrite lookup_alter_eq, ensure_index_entry. reflexivity.
Qed.

Lemma upsert_other (pack_key k : string) (docs : list Doc) (w : World vec) :
  k <> pack_key ->
  _pack_indexes (upsert_documents C pack_key docs w) !! k =
  _pack_indexes w !! k.
Proof.
  intros Hk. unfold upsert_documents. simpl.
  rewrite lookup_alter_ne by congruence. apply ensure_index_other, Hk.
Qed.

Lemma fetch_docs_length (links : list string) (w : World vec) :
  (length (snd (fetch_docs C links w)) <= length links)%nat.
Proof.
  revert w. induction links as [|u rest IH]; intros w; simpl; [lia|].
  destruct (client_get C u) as [html|].
  - specialize (IH (log_event (EvGet u) w)).
    destruct (fetch_docs C rest (log_event (EvGet u) w)) as [w' docs].
    simpl in *. lia.
  - specialize (IH (log_event (EvGet u) w)). lia.
Qed.

Lemma fetch_docs_texts (links : list string) (w : World vec) :
  Forall (fun d => (String.length (text d) <= text_cap)%nat /\ In (url d) links)
         (snd (fetch_docs C links w)).
Proof.
  revert w. induction links as [|u rest IH]; intros w; simpl; [constructor|].
  destruct (client_get C u) as [html|].
  - specialize (IH (log_event (EvGet u) w)).
    destruct (fetch_docs C rest (log_event (EvGet u) w)) as [w' docs].
    simpl in *. constructor.
    + simpl. split; [apply substring_length|auto].
    + eapply Forall_impl; [exact IH|]. simpl. intros d [H1 H2]. auto.
  - specialize (IH (log_event (EvGet u) w)).
    eapply Forall_impl; [exact IH|]. simpl. intros d [H1 H2]. auto.
Qed.

Lemma candidate_links_length (base : string) (kws : list string) (limit : Z)
    (w : World vec) (links : list string) :
  0 <= limit ->
  snd (_candidate_links C base kws limit w) = Some links ->
  Z.of_nat (length links) <= limit.
Proof.
  intros Hl. unfold _candidate_links, _fetch.
  destruct (client_get C base); simpl; [|discriminate].
  destruct (links_loop C base _ _); simpl; [|discriminate].
  intros [= <-]. apply slice_to_length, Hl.
Qed.

(** The outer loop: the documents it counts are the ones it appends to the
    pack's metadata, at most [limit] per source. *)
Lemma ingest_sources_writes (pack_key : string) (srcs subs : list string)
    (limit total : Z) (all_urls : list string) (w : World vec) :
  let r := ingest_sources C pack_key srcs subs limit total all_urls w in
  exists added,
    meta (pack_entry pack_key (fst r)) = (meta (pack_entry pack_key w) ++ added)%list /\
    fst (snd r) = total + Z.of_nat (length added) /\
    Forall (fun d => (String.length (text d) <= text_cap)%nat) added /\
    (0 <= limit -> Z.of_nat (length added) <= limit * Z.of_nat (length srcs)) /\
    (forall k, k <> pack_key ->
       _pack_indexes (fst r) !! k = _pack_indexes w !! k).
Proof.
  revert total all_urls w.
  induction srcs as [|base rest IH]; intros total all_urls w; simpl.
  { exists []. rewrite app_nil_r. repeat split; auto; simpl; lia. }
  pose proof (candidate_links_frame C base subs limit w) as (_ & _ & _ & F4).
  pose proof (candidate_links_length base subs limit w) as Hlen.
  destruct (_candidate_links C base subs limit w) as [w1 [links|]];
    simpl in F4, Hlen.
  - pose proof (fetch_docs_frame C links w1) as (_ & _ & _ & G4).
    pose proof (fetch_docs_length links w1) as Hdocs.
    pose proof (fetch_docs_texts links w1) as Htexts.
    destruct (fetch_docs C links w1) as [w2 docs]. simpl in G4, Hdocs, Htexts.
    assert (Hentry : pack_entry pack_key w2 = pack_entry pack_key w).
    { unfold pack_entry. rewrite G4, F4. reflexivity. }
    destruct docs as [|d docs].
    + destruct (IH total (all_urls ++ links)%list w2)
        as (added & I1 & I2 & I3 & I4 & I5).
      exists added. rewrite I1, I2, Hentry.
      split; [reflexivity|]. split; [reflexivity|]. split; [exact I3|].
      split; [intros Hl; specialize (I4 Hl); lia|].
      intros k Hk. rewrite (I5 k Hk), G4, F4. reflexivity.
    + destruct (IH (total + Z.of_nat (length (d :: docs)))
                   (all_urls ++ links)%list
                   (upsert_documents C pack_key (d :: docs) w2))
        as (added & I1 & I2 & I3 & I4 & I5).
      exists ((d :: docs) ++ added)%list.
      rewrite I1, I2. unfold pack_entry at 1.
      rewrite upsert_entry. cbn [from_option id meta].
      rewrite Hentry, <- app_assoc.
      split; [reflexivity|].
      split; [rewrite length_app; lia|].
      split; [apply Forall_app; split; [|exact I3];
              eapply Forall_impl; [exact Htexts|]; simpl; tauto|].
      split.
      * intros Hl. specialize (I4 Hl). specialize (Hlen links Hl eq_refl).
        rewrite length_app. lia.
      * intros k Hk. rewrite (I5 k Hk), upsert_other by exact Hk.
        rewrite G4, F4. reflexivity.
  - destruct (IH total all_urls w1) as (added & I1 & I2 & I3 & I4 & I5).
    assert (Hentry : pack_entry pack_key w1 = pack_entry pack_key w).
    { unfold pack_entry. rewrite F4. reflexivity. }
    exists added. rewrite I1, I2, Hentry.
    split; [reflexivity|]. split; [reflexivity|]. split; [exact I3|].
    split; [intros Hl; specialize (I4 Hl); lia|].
    intros k Hk. rewrite (I5 k Hk), F4. reflexivity.
Qed.

Lemma ingest_stage_a_writes (pack_key : string) (srcs subs : list string)
    (limit : Z) (w : World vec) :
  let r := ingest_stage_a C pack_key srcs subs limit w in
  exists added,
    meta (pack_entry pack_key (fst r)) = (meta (pack_entry pack_key w) ++ added)%list /\
    fst (snd r) = Z.of_nat (length added) /\
    Forall (fun d => (String.length (text d) <= text_cap)%nat) added /\
    (0 <= limit -> Z.of_nat (length added) <= limit * Z.of_nat (length srcs)) /\
    (forall k, k <> pack_key ->
       _pack_indexes (fst r) !! k = _pack_indexes w !! k).
Proof.
  unfold ingest_stage_a. destruct srcs as [|s srcs].
  { simpl. exists []. rewrite app_nil_r. repeat split; auto; simpl; lia. }
  pose proof (ingest_sources_writes pack_key (s :: srcs) subs limit 0 [] w) as H.
  destruct (ingest_sources C pack_key (s :: srcs) subs limit 0 [] w)
    as [w' [total all_urls]].
  cbv zeta in H. simpl fst in *. simpl snd in *. exact H.
Qed.

(** X5: the count that [ingest_stage_a] returns is exactly the number of
    documents it appended to the metadata of the pack: the earlier entries
    keep their offsets, and no other pack is touched. *)
Theorem ingest_count_is_growth (pack_key : string) (srcs subs : list string)
    (limit : Z) (w : World vec) :
  exists added,
    meta (pack_entry pack_key
            (fst (ingest_stage_a C pack_key srcs subs limit w))) =
      (meta (pack_entry pack_key w) ++ added)%list /\
    fst (snd (ingest_stage_a C pack_key srcs subs limit w)) =
      Z.of_nat (length added) /\
    (forall k, k <> pack_key ->
       _pack_indexes (fst (ingest_stage_a C pack_key srcs subs limit w)) !! k =
       _pack_indexes w !! k).
Proof.
  destruct (ingest_stage_a_writes pack_key srcs subs limit w)
    as (added & H1 & H2 & _ & _ & H5).
  exists added. auto.
Qed.

(** X6: with a page cap [limit >= 0], a run ingests at most [limit]
    documents per source: the count is between 0 and [limit] times the
    number of sources. *)
Theorem ingest_count_capped (pack_key : string) (srcs subs : list string)
    (limit : Z) (w : World vec) :
  0 <= limit ->
  0 <= fst (snd (ingest_stage_a C pack_key srcs subs limit w))
    <= limit * Z.of_nat (length srcs).
Proof.
  intros Hl.
  destruct (ingest_stage_a_writes pack_key srcs subs limit w)
    as (added & _ & H2 & _ & H4 & _).
  rewrite H2. specialize (H4 Hl). lia.
Qed.

(** X7: the URL list that [ingest_stage_a] returns has no duplicates and
    at most 100 entries. *)
Theorem ingest_urls_distinct_bounded (pack_key : string)
    (srcs subs : list string) (limit : Z) (w : World vec) :
  List.NoDup (snd (snd (ingest_stage_a C pack_key srcs subs limit w))) /\
  (length (snd (snd (ingest_stage_a C pack_key srcs subs limit w))) <= 100)%nat.
Proof.
  unfold ingest_stage_a. destruct srcs as [|s srcs].
  { simpl. split; [constructor|lia]. }
  destruct (ingest_sources C pack_key (s :: srcs) subs limit 0 [] w)
    as [w' [total all_urls]].
  simpl. split; [apply last_n_NoDup, dedup_NoDup|apply last_n_length].
Qed.

End IngestRun.

(** ** Invariants of every reachable configuration *)

Section WorldInvariants.
Context {vec score : Type}.
Variable score_lt : score -> score -> bool.
Variable C : Collab vec score.

Lemma bg_ingest_unfold (t : BgTask) (w : World vec) :
  _bg_ingest C t w =
  (if bg_count C t w =? 0 then (fun x => x)
   else set_completeness (bg_key t)
          (fun c => PyFloat.min 1 (PyFloat.max c 0.6)))
    (_log_ingest (bg_key t)
       (snd (snd (ingest_stage_a C (bg_key t) (bg_sources t) (bg_subs t)
                    (bg_limit t) w)))
       (fst (ingest_stage_a C (bg_key t) (bg_sources t) (bg_subs t)
               (bg_limit t) w))).
Proof.
  unfold _bg_ingest, bg_count.
  destruct (ingest_stage_a C (bg_key t) (bg_sources t) (bg_subs t)
              (bg_limit t) w) as [w1 [count urls]].
  simpl. destruct (count =? 0); reflexivity.
Qed.

Lemma retrieve_world (pack_key query : string) (k : Z) (w : World vec) :
  let w' := fst (retrieve_from_pack score_lt C pack_key query k w) in
  _packs w' = _packs w /\ _ingest_log w' = _ingest_log w /\
  tasks w' = tasks w /\
  _pack_indexes w' = _pack_indexes (_ensure_index pack_key w).
Proof.
  unfold retrieve_from_pack.
  destruct (ensure_index_frame pack_key w) as (H1 & H2 & H3 & _).
  destruct (ntotal _ =? 0); [simpl; auto|].
  destruct (mapM _ _); simpl; auto.
Qed.

(** A property of the world that every operation of a step keeps holds in
    every reachable configuration. *)
Lemma reachable_world_inv (P : World vec -> Prop) :
  P init_world ->
  (forall w d lg, P w -> P (ensure_begin d lg w)) ->
  (forall w d lg, P w -> P (fst (ensure_finish C d lg w))) ->
  (forall w t ts, P w -> P (_bg_ingest C t (set_tasks ts w))) ->
  (forall w key q k, P w -> P (fst (retrieve_from_pack score_lt C key q k w))) ->
  (forall w key, P w -> P (fst (get_index_stats key w))) ->
  forall c, reachable score_lt C c -> P (world c).
Proof.
  intros H0 Hb Hf Hg Hr Hs c Hc. unfold reachable in Hc.
  revert c Hc.
  apply (rtc_ind_r (R := step score_lt C) (fun c => P (world c)) init_config);
    [exact H0|].
  intros y z _ Hstep IH. destruct Hstep; cbn [world].
  - unfold ensure_pack_for_decision. destruct H as [m ->]. exact IH.
  - apply Hb, IH.
  - apply Hf, IH.
  - apply Hg, IH.
  - apply Hr, IH.
  - apply Hs, IH.
Qed.

(** *** Properties of the packs of the index store *)

Section PackProperty.
Variable Q : PackIndex vec -> Prop.
Hypothesis Q_empty : Q {| index := []; meta := [] |}.
Hypothesis Q_append :
  forall p docs,
    Q p -> Forall (fun d => (String.length (text d) <= text_cap)%nat) docs ->
    Q {| index := index p ++
                  normalize C (encode C (map (fun d => "passage: " ++ text d) docs));
         meta := meta p ++ docs |}.

Lemma all_packs_same (w w' : World vec) :
  _pack_indexes w' = _pack_indexes w -> all_packs Q w -> all_packs Q w'.
Proof. unfold all_packs. intros ->. auto. Qed.

Lemma all_packs_ensure_index (pack_key : string) (w : World vec) :
  all_packs Q w -> all_packs Q (_ensure_index pack_key w).
Proof.
  intros H key p Hp. unfold _ensure_index in Hp.
  destruct (_pack_indexes w !! pack_key) eqn:E; [apply (H key p Hp)|].
  simpl in Hp. destruct (decide (pack_key = key)) as [->|Hne].
  - rewrite lookup_insert_eq in Hp. injection Hp as <-. exact Q_empty.
  - rewrite lookup_insert_ne in Hp by exact Hne. apply (H key p Hp).
Qed.

Lemma all_packs_entry (pack_key : string) (w : World vec) :
  all_packs Q w -> Q (pack_entry pack_key w).
Proof.
  intros H. unfold pack_entry.
  destruct (_pack_indexes w !! pack_key) eqn:E; simpl;
    [apply (H _ _ E)|exact Q_empty].
Qed.

Lemma all_packs_upsert (pack_key : string) (docs : list Doc) (w : World vec) :
  Forall (fun d => (String.length (text d) <= text_cap)%nat) docs ->
  all_packs Q w -> all_packs Q (upsert_documents C pack_key docs w).
Proof.
  intros Hdocs H key p Hp.
  destruct (decide (key = pack_key)) as [->|Hne].
  - rewrite upsert_entry in Hp. injection Hp as <-.
    apply Q_append; [apply all_packs_entry, H|exact Hdocs].
  - rewrite upsert_other in Hp by exact Hne. apply (H key p Hp).
Qed.

Lemma all_packs_ingest_sources (pack_key : string) (srcs subs : list string)
    (limit total : Z) (all_urls : list string) (w : World vec) :
  all_packs Q w ->
  all_packs Q (fst (ingest_sources C pack_key srcs subs limit total all_urls w)).
Proof.
  revert total all_urls w.
  induction srcs as [|base rest IH]; intros total all_urls w H; simpl; [exact H|].
  pose proof (candidate_links_frame C base subs limit w) as (_ & _ & _ & F4).
  destruct (_candidate_links C base subs limit w) as [w1 [links|]]; simpl in F4.
  - pose proof (fetch_docs_frame C links w1) as (_ & _ & _ & G4).
    pose proof (fetch_docs_texts C links w1) as Htexts.
    destruct (fetch_docs C links w1) as [w2 docs]. simpl in G4, Htexts.
    assert (H2 : all_packs Q w2).
    { apply (all_packs_same w); [congruence|exact H]. }
    destruct docs as [|d docs]; [apply IH, H2|].
    apply IH, all_packs_upsert; [|exact H2].
    eapply Forall_impl; [exact Htexts|]. simpl. tauto.
  - apply IH. apply (all_packs_same w); [exact F4|exact H].
Qed.

Lemma all_packs_ingest (pack_key : string) (srcs subs : list string)
    (limit : Z) (w : World vec) :
  all_packs Q w ->
  all_packs Q (fst (ingest_stage_a C pack_key srcs subs limit w)).
Proof.
  intros H. unfold ingest_stage_a. destruct srcs as [|s srcs]; [exact H|].
  pose proof (all_packs_ingest_sources pack_key (s :: srcs) subs limit 0 [] w H)
    as H'.
  destruct (ingest_sources C pack_key (s :: srcs) subs limit 0 [] w)
    as [w' [total all_urls]].
  exact H'.
Qed.

Lemma log_ingest_indexes (key : string) (urls : list string) (w : World vec) :
  _pack_indexes (_log_ingest key urls w) = _pack_indexes w.
Proof. unfold _log_ingest. destruct urls; reflexivity. Qed.

Lemma all_packs_reachable (c : Config) :
  reachable score_lt C c -> all_packs Q (world c).
Proof.
  apply reachable_world_inv.
  - intros key p Hp. simpl in Hp. rewrite lookup_empty in Hp. discriminate.
  - intros w d lg H. exact H.
  - intros w d lg H. rewrite ensure_finish_unfold.
    apply (all_packs_same
             (fst (ingest_stage_a C (decision_key d lg)
                     (decision_candidate_sources d)
                     (decision_subtopics d) 15 w)));
      [simpl; apply log_ingest_indexes|apply all_packs_ingest, H].
  - intros w t ts H. rewrite bg_ingest_unfold.
    apply (all_packs_same
             (fst (ingest_stage_a C (bg_key t) (bg_sources t) (bg_subs t)
                     (bg_limit t) (set_tasks ts w)))).
    + destruct (bg_count C t (set_tasks ts w) =? 0); simpl;
        apply log_ingest_indexes.
    + apply all_packs_ingest. exact H.
  - intros w key q k H.
    destruct (retrieve_world key q k w) as (_ & _ & _ & H4).
    apply (all_packs_same (_ensure_index key w));
      [exact H4|apply all_packs_ensure_index, H].
  - intros w key H. unfold get_index_stats. simpl.
    apply all_packs_ensure_index, H.
Qed.

End PackProperty.

(** X8: when the embedder gives one vector per text and the index search
    honours its contract, every reachable configuration keeps the vectors
    and the metadata of every pack at the same length; [get_index_stats]
    then reports equal counts and [retrieve_from_pack] returns a result,
    never an [IndexError], for every key, query and [k]. *)
Theorem reachable_packs_aligned (c : Config) :
  encode_contract C -> search_contract C ->
  reachable score_lt C c ->
  aligned (world c) /\
  (forall key, fst (snd (get_index_stats key (world c))) =
               snd (snd (get_index_stats key (world c)))) /\
  (forall key q k, exists ctx cits,
      snd (retrieve_from_pack score_lt C key q k (world c)) = Ok (ctx, cits)).
Proof.
  intros He Hs Hc.
  assert (Ha : all_packs (fun p => length (index p) = length (meta p)) (world c)).
  { apply all_packs_reachable; [reflexivity| |exact Hc].
    intros p docs Hp _. simpl. rewrite !length_app, He, length_map, Hp.
    reflexivity. }
  assert (He' : forall key, length (index (pack_entry key (world c))) =
                            length (meta (pack_entry key (world c)))).
  { intros key. unfold pack_entry.
    destruct (_pack_indexes (world c) !! key) eqn:E; simpl;
      [apply (Ha _ _ E)|reflexivity]. }
  split; [exact Ha|]. split.
  - intros key. unfold get_index_stats. simpl.
    rewrite pack_entry_ensure. unfold ntotal. rewrite He'. reflexivity.
  - intros key q k. apply retrieve_returns; [exact Hs|].
    symmetry. apply He'.
Qed.

(** X9: in every reachable configuration every stored document has a
    text of at most 5000 characters. *)
Theorem reachable_texts_bounded (c : Config) :
  reachable score_lt C c -> texts_bounded (world c).
Proof.
  intros Hc.
  assert (Ha : all_packs
                 (fun p => Forall (fun d => (String.length (text d) <= text_cap)%nat)
                                  (meta p)) (world c)).
  { apply all_packs_reachable; [constructor| |exact Hc].
    intros p docs Hp Hd. simpl. apply Forall_app. auto. }
  intros key p d Hp Hd. specialize (Ha key p Hp). simpl in Ha.
  rewrite List.Forall_forall in Ha. apply Ha, Hd.
Qed.

End WorldInvariants.

(** ** The ingest log *)

Lemma dedup_length (l : list string) : (length (Py.dedup l) <= length l)%nat.
Proof. apply sublist_length, dedup_from_sublist. Qed.

Lemma last_n_all {A} (n : nat) (l : list A) :
  (length l <= n)%nat -> Py.last_n n l = l.
Proof.
  intros H. unfold Py.last_n.
  replace (length l - n)%nat with 0%nat by lia. reflexivity.
Qed.

Section IngestLog.
Context {vec : Type}.

(** X10: [_log_ingest] with no URL changes nothing.  With URLs it
    replaces the log of the key by a list without duplicates of at most 50
    entries, each taken from the previous log or from the new URLs, and
    leaves the logs of the other keys; as long as the previous log and the
    new URLs together have at most 50 entries none is dropped: the new log
    is their concatenation without its repeated entries. *)
Theorem log_ingest_effect (key : string) (urls : list string) (w : World vec) :
  (urls = [] -> _log_ingest key urls w = w) /\
  (urls <> [] ->
   exists l,
     _ingest_log (_log_ingest key urls w) !! key = Some l /\
     List.NoDup l /\ (length l <= 50)%nat /\
     (forall u, In u l ->
        In u (default [] (_ingest_log w !! key)) \/ In u urls) /\
     ((length (default [] (_ingest_log w !! key) ++ urls) <= 50)%nat ->
      l = Py.dedup (default [] (_ingest_log w !! key) ++ urls))) /\
  (forall k, k <> key ->
     _ingest_log (_log_ingest key urls w) !! k = _ingest_log w !! k).
Proof.
  split; [intros ->; reflexivity|]. split.
  - intros Hne. destruct urls as [|u urls]; [contradiction|].
    unfold _log_ingest. cbn [_ingest_log set_ingest_log].
    rewrite lookup_insert_eq. eexists. split; [reflexivity|].
    split; [apply last_n_NoDup, dedup_NoDup|].
    split; [apply last_n_length|]. split.
    + intros x Hx. apply last_n_In in Hx.
      apply (proj1 (dedup_In _ _)) in Hx. apply last_n_In in Hx.
      apply in_app_or in Hx. exact Hx.
    + intros Hlen. rewrite (last_n_all 200) by lia.
      apply last_n_all.
      pose proof (dedup_length (default [] (_ingest_log w !! key) ++ u :: urls)).
      lia.
  - intros k Hk. unfold _log_ingest. destruct urls; [reflexivity|].
    cbn [_ingest_log set_ingest_log]. apply lookup_insert_ne. congruence.
Qed.

Lemma log_ingest_bounded (key : string) (urls : list string) (w : World vec) :
  logs_bounded w -> logs_bounded (_log_ingest key urls w).
Proof.
  intros H k l Hl. unfold _log_ingest in Hl.
  destruct urls as [|u urls]; [apply (H k l Hl)|].
  cbn [_ingest_log set_ingest_log] in Hl.
  destruct (decide (key = k)) as [->|Hne].
  - rewrite lookup_insert_eq in Hl. injection Hl as <-.
    split; [apply last_n_NoDup, dedup_NoDup|apply last_n_length].
  - rewrite lookup_insert_ne in Hl by exact Hne. apply (H k l Hl).
Qed.

End IngestLog.

Section LogInvariant.
Context {vec score : Type}.
Variable score_lt : score -> score -> bool.
Variable C : Collab vec score.

(** X11: in every reachable configuration the ingest log of every key
    holds at most 50 URLs, all distinct. *)
Theorem reachable_logs_bounded (c : Config) :
  reachable score_lt C c -> logs_bounded (world c).
Proof.
  apply (reachable_world_inv score_lt C (fun w => logs_bounded w)).
  - intros k l Hl. simpl in Hl. rewrite lookup_empty in Hl. discriminate.
  - intros w d lg H. exact H.
  - intros w d lg H. rewrite ensure_finish_unfold.
    cbn [fst]. unfold logs_bounded.
    cbn [_ingest_log set_tasks set_completeness set_packs].
    apply log_ingest_bounded. unfold logs_bounded.
    destruct (ingest_stage_a_frame C (decision_key d lg)
                (decision_candidate_sources d) (decision_subtopics d) 15 w)
      as (_ & -> & _). exact H.
  - intros w t ts H. rewrite bg_ingest_unfold.
    assert (Hl : logs_bounded
                   (_log_ingest (bg_key t)
                      (snd (snd (ingest_stage_a C (bg_key t) (bg_sources t)
                                   (bg_subs t) (bg_limit t) (set_tasks ts w))))
                      (fst (ingest_stage_a C (bg_key t) (bg_sources t)
                              (bg_subs t) (bg_limit t) (set_tasks ts w))))).
    { apply log_ingest_bounded. unfold logs_bounded.
      destruct (ingest_stage_a_frame C (bg_key t) (bg_sources t) (bg_subs t)
                  (bg_limit t) (set_tasks ts w)) as (_ & -> & _). exact H. }
    destruct (bg_count C t (set_tasks ts w) =? 0); exact Hl.
  - intros w key q k H. unfold logs_bounded.
    destruct (retrieve_world score_lt C key q k w) as (_ & -> & _). exact H.
  - intros w key H. unfold logs_bounded, get_index_stats. simpl.
    destruct (ensure_index_frame key w) as (_ & -> & _). exact H.
Qed.

(** X12: in every reachable configuration the completeness of every
    manifest is 0, 0.3 or 0.6; the cap at 1.0 is never reached. *)
Theorem reachable_completeness_values (c : Config) :
  reachable score_lt C c ->
  forall key m, _packs (world c) !! key = Some m ->
    completeness m = 0%Q \/ completeness m = 0.3%Q \/ completeness m = 0.6%Q.
Proof.
  apply (reachable_world_inv score_lt C
           (fun w => forall key m, _packs w !! key = Some m ->
              completeness m = 0%Q \/ completeness m = 0.3%Q \/
              completeness m = 0.6%Q)).
  - intros key m Hm. simpl in Hm. rewrite lookup_empty in Hm. discriminate.
  - intros w d lg H key m Hm. rewrite ensure_begin_packs in Hm.
    destruct (decide (decision_key d lg = key)) as [<-|Hne].
    + rewrite lookup_insert_eq in Hm. injection Hm as <-. left. reflexivity.
    + rewrite lookup_insert_ne in Hm by exact Hne. apply (H key m Hm).
  - intros w d lg H key m Hm.
    destruct (ensure_finish_packs C d lg w) as (q & Hq & Hp).
    rewrite Hp in Hm. apply alter_completeness_lookup in Hm
      as (m0 & Hm0 & [[_ ->]|[_ ->]]); [|apply (H key m0 Hm0)].
    simpl. destruct Hq as [->| ->]; auto.
  - intros w t ts H key m Hm. rewrite bg_ingest_packs in Hm.
    destruct (bg_count C t (set_tasks ts w) =? 0); [apply (H key m Hm)|].
    apply alter_completeness_lookup in Hm
      as (m0 & Hm0 & [[_ ->]|[_ ->]]); [|apply (H key m0 Hm0)].
    simpl. right. right.
    destruct (H key m0 Hm0) as [->|[->| ->]]; reflexivity.
  - intros w key q k H key' m Hm.
    destruct (retrieve_frame score_lt C key q k w) as [Hp _].
    rewrite Hp in Hm. apply (H key' m Hm).
  - intros w key H key' m Hm.
    destruct (get_index_stats_frame key w) as [Hp _].
    rewrite Hp in Hm. apply (H key' m Hm).
Qed.

(** X13: no step deletes a manifest or changes its tech, version,
    language, source list or ttl: only the completeness is ever
    rewritten. *)
Theorem step_keeps_manifest_fields (c c' : Config) (key : string) (m : Manifest) :
  step score_lt C c c' ->
  _packs (world c) !! key = Some m ->
  exists m', _packs (world c') !! key = Some m' /\
             tech m' = tech m /\ version m' = version m /\
             lang m' = lang m /\ sources m' = sources m /\
             ttl_days m' = ttl_days m.
Proof.
  intros Hstep Hm. destruct Hstep; cbn [world].
  - unfold ensure_pack_for_decision. destruct H as [m0 ->]. simpl.
    exists m. auto 10.
  - exists m. rewrite ensure_begin_packs.
    rewrite lookup_insert_ne; [auto 10|]. intros Heq. congruence.
  - destruct (ensure_finish_packs C d lg (world c)) as (q & _ & ->).
    destruct (decide (decision_key d lg = key)) as [<-|Hne].
    + rewrite lookup_alter_eq, Hm. simpl. eexists. split; [reflexivity|].
      simpl. auto 10.
    + rewrite lookup_alter_ne by exact Hne. exists m. auto 10.
  - rewrite bg_ingest_packs. simpl.
    destruct (bg_count C t (set_tasks (pre ++ post) (world c)) =? 0);
      [exists m; auto 10|].
    destruct (decide (bg_key t = key)) as [<-|Hne].
    + rewrite lookup_alter_eq, Hm. simpl. eexists. split; [reflexivity|].
      simpl. auto 10.
    + rewrite lookup_alter_ne by exact Hne. exists m. auto 10.
  - destruct (retrieve_frame score_lt C pack_key query k (world c)) as [-> _].
    exists m. auto 10.
  - destruct (get_index_stats_frame pack_key (world c)) as [-> _].
    exists m. auto 10.
Qed.

(** X14: a retrieval only reads.  It leaves the manifests, the ingest
    logs and the scheduled tasks, keeps every existing pack entry, and
    every pack reads the same before and after: the only write is the
    empty entry that [_ensure_index] creates for an unknown key. *)
Theorem retrieve_read_only (pack_key query : string) (k : Z) (w : World vec) :
  _packs (fst (retrieve_from_pack score_lt C pack_key query k w)) = _packs w /\
  _ingest_log (fst (retrieve_from_pack score_lt C pack_key query k w)) =
    _ingest_log w /\
  tasks (fst (retrieve_from_pack score_lt C pack_key query k w)) = tasks w /\
  (forall key p, _pack_indexes w !! key = Some p ->
     _pack_indexes (fst (retrieve_from_pack score_lt C pack_key query k w))
       !! key = Some p) /\
  (forall key,
     pack_entry key (fst (retrieve_from_pack score_lt C pack_key query k w)) =
     pack_entry key w).
Proof.
  destruct (retrieve_world score_lt C pack_key query k w) as (H1 & H2 & H3 & H4).
  split; [exact H1|]. split; [exact H2|]. split; [exact H3|]. split.
  - intros key p Hp. rewrite H4.
    destruct (decide (key = pack_key)) as [->|Hne].
    + rewrite ensure_index_entry. unfold pack_entry. rewrite Hp. reflexivity.
    + rewrite ensure_index_other by exact Hne. exact Hp.
  - intros key. unfold pack_entry at 1. rewrite H4.
    fold (pack_entry key (_ensure_index pack_key w)).
    apply pack_entry_ensure_any.
Qed.

End LogInvariant.

(** ** A document that is alone in its pack is retrieved *)

Section RoundTrip.
Context {vec score : Type}.
Variable score_lt : score -> score -> bool.
Variable C : Collab vec score.

Lemma firstn_singleton {A} (n : nat) (x : A) :
  (0 < n)%nat -> firstn n [x] = [x].
Proof. destruct n as [|[|n]]; [lia| |]; reflexivity. Qed.

(** X15: after [upsert_documents] puts one document into an empty (or
    absent) pack, a retrieval with [k > 0] returns exactly that document
    as its only context item and its only citation, with the score the
    reranker gives it, provided the embedder, the index search and the
    reranker honour their contracts. *)
Theorem upsert_then_retrieve_single
    (pack_key query : string) (k : Z) (d : Doc) (w : World vec) :
  encode_contract C -> search_contract C -> predict_contract C ->
  pack_entry pack_key w = {| index := []; meta := [] |} ->
  0 < k ->
  exists s,
    rerank_scores C query [d] = [s] /\
    snd (retrieve_from_pack score_lt C pack_key query k
           (upsert_documents C pack_key [d] w)) =
      Ok ([context_of (hit_of (d, s))], [citation_of (hit_of (d, s))]).
Proof.
  intros He Hs Hp Hempty Hk.
  set (vecs := normalize C (encode C (map (fun d => "passage: " ++ text d) [d]))).
  assert (Hv : length vecs = 1%nat) by (unfold vecs; rewrite He; reflexivity).
  assert (Hentry : pack_entry pack_key (upsert_documents C pack_key [d] w) =
                   {| index := vecs; meta := [d] |}).
  { unfold pack_entry at 1. rewrite upsert_entry, Hempty. reflexivity. }
  assert (Hn : ntotal (pack_entry pack_key (upsert_documents C pack_key [d] w)) = 1).
  { rewrite Hentry. unfold ntotal. simpl. rewrite Hv. reflexivity. }
  assert (Hscores : exists s, rerank_scores C query [d] = [s]).
  { unfold rerank_scores. specialize (Hp (map (fun c => (query, text c)) [d])).
    destruct (predict C (map (fun c => (query, text c)) [d])) as [|s [|s' l]];
      simpl in Hp; try discriminate. eauto. }
  destruct Hscores as [s Hsc]. exists s. split; [exact Hsc|].
  rewrite (retrieve_unfold score_lt C) by (rewrite Hn; discriminate).
  cbv zeta.
  assert (Hc : recall_candidates C pack_key query k
                 (upsert_documents C pack_key [d] w) = Some [d]).
  { unfold recall_candidates, recall_labels. rewrite Hn, Hentry. cbn [index meta].
    assert (Hpre : pre_k_of k 1 = 1) by (unfold pre_k_of; lia).
    rewrite Hpre.
    destruct (Hs vecs (normalize C (encode C ["query: " ++ query])) 1)
      as [Hlen Hall]; [rewrite Hv; lia|].
    destruct (index_search C vecs (normalize C (encode C ["query: " ++ query])) 1)
      as [|i [|j l]]; simpl in Hlen; try discriminate.
    apply Forall_cons in Hall as [Hi _]. rewrite Hv in Hi.
    assert (i = 0) by lia. subst i. reflexivity. }
  rewrite Hc, Hsc. unfold rank, Py.sorted. simpl.
  unfold Py.slice_to. destruct (0 <=? k) eqn:E; [|apply Z.leb_gt in E; lia].
  rewrite firstn_singleton by lia. reflexivity.
Qed.

End RoundTrip.

(** ** Pack summaries *)

Section SummaryReport.
Context {vec score : Type}.
Variable C : Collab vec score.

Lemma pack_summaries_report_from (order : list string) (w0 w : World vec) :
  _packs w = _packs w0 -> _ingest_log w = _ingest_log w0 ->
  tasks w = tasks w0 -> trace w = trace w0 ->
  (forall key, pack_entry key w = pack_entry key w0) ->
  (forall key, In key order -> is_Some (_packs w0 !! key)) ->
  map sum_key (snd (pack_summaries order w)) = order /\
  Forall (fun s =>
            exists man,
              _packs w0 !! sum_key s = Some man /\
              sum_tech s = tech man /\ sum_version s = version man /\
              sum_lang s = lang man /\ sum_sources s = sources man /\
              sum_completeness s = completeness man /\
              sum_ntotal s = ntotal (pack_entry (sum_key s) w0) /\
              sum_recent_urls s =
                Py.last_n 10 (default [] (_ingest_log w0 !! sum_key s)) /\
              (length (sum_recent_urls s) <= 10)%nat)
         (snd (pack_summaries order w)) /\
  _packs (fst (pack_summaries order w)) = _packs w0 /\
  _ingest_log (fst (pack_summaries order w)) = _ingest_log w0 /\
  tasks (fst (pack_summaries order w)) = tasks w0 /\
  trace (fst (pack_summaries order w)) = trace w0 /\
  (forall key, pack_entry key (fst (pack_summaries order w)) = pack_entry key w0) /\
  (forall key, In key order \/ is_Some (_pack_indexes w !! key) ->
     is_Some (_pack_indexes (fst (pack_summaries order w)) !! key)).
Proof.
  revert w. induction order as [|key rest IH]; intros w Hp Hl Ht Htr He Hall.
  { simpl. repeat split; auto. intros key [[]|H]. exact H. }
  cbn [pack_summaries].
  destruct (Hall key (or_introl eq_refl)) as [man Hman].
  rewrite Hp, Hman. unfold get_index_stats. cbn [fst snd].
  destruct (ensure_index_frame key w) as (E1 & E2 & E3 & E4).
  destruct (IH (_ensure_index key w)) as (I1 & I2 & I3 & I4 & I5 & I6 & I7 & I8).
  - congruence.
  - congruence.
  - congruence.
  - congruence.
  - intros k. rewrite pack_entry_ensure_any. apply He.
  - intros k Hk. apply Hall. right. exact Hk.
  - destruct (pack_summaries rest (_ensure_index key w)) as [w' out].
    cbn [fst snd] in *. split; [cbn [map sum_key]; rewrite I1; reflexivity|].
    split.
    { constructor; [|exact I2]. exists man. cbn.
      rewrite pack_entry_ensure, He, E2, Hl.
      split; [exact Hman|]. repeat (split; [reflexivity|]).
      apply last_n_length. }
    split; [exact I3|]. split; [exact I4|]. split; [exact I5|].
    split; [exact I6|]. split; [exact I7|].
    intros k [[<-|Hk]|Hk].
    + apply I8. right. rewrite ensure_index_entry. eauto.
    + apply I8. left. exact Hk.
    + apply I8. right.
      destruct (decide (k = key)) as [->|Hne];
        [rewrite ensure_index_entry; eauto|].
      rewrite ensure_index_other by exact Hne. exact Hk.
Qed.

(** X16: when [order] enumerates keys that have a manifest,
    [pack_summaries] gives one summary per key, in that order; each
    carries the fields and the completeness of the manifest of its key,
    the number of vectors of its pack and the last URLs of its ingest log,
    at most 10.  The call leaves the manifests, the logs, the tasks and
    the trace, every pack reads as before, and every listed key has an
    index entry afterwards. *)
Theorem pack_summaries_report (order : list string) (w : World vec) :
  (forall key, In key order -> is_Some (_packs w !! key)) ->
  map sum_key (snd (pack_summaries order w)) = order /\
  Forall (fun s =>
            exists man,
              _packs w !! sum_key s = Some man /\
              sum_tech s = tech man /\ sum_version s = version man /\
              sum_lang s = lang man /\ sum_sources s = sources man /\
              sum_completeness s = completeness man /\
              sum_ntotal s = ntotal (pack_entry (sum_key s) w) /\
              sum_recent_urls s =
                Py.last_n 10 (default [] (_ingest_log w !! sum_key s)) /\
              (length (sum_recent_urls s) <= 10)%nat)
         (snd (pack_summaries order w)) /\
  _packs (fst (pack_summaries order w)) = _packs w /\
  _ingest_log (fst (pack_summaries order w)) = _ingest_log w /\
  tasks (fst (pack_summaries order w)) = tasks w /\
  trace (fst (pack_summaries order w)) = trace w /\
  (forall key, pack_entry key (fst (pack_summaries order w)) = pack_entry key w) /\
  (forall key, In key order ->
     is_Some (_pack_indexes (fst (pack_summaries order w)) !! key)).
Proof.
  intros Hall.
  destruct (pack_summaries_report_from order w w)
    as (H1 & H2 & H3 & H4 & H5 & H6 & H7 & H8); auto.
  repeat (split; [assumption|]). intros key Hk. apply H8. left. exact Hk.
Qed.

End SummaryReport.

(** ** The plan and retrieve nodes of a turn *)

Lemma qltb_of_lt (a b : Q) : (a < b)%Q -> PyFloat.ltb a b = true.
Proof.
  intros H. unfold PyFloat.ltb. apply negb_true_iff.
  destruct (Qle_bool b a) eqn:E; [|reflexivity].
  apply Qle_bool_iff in E. lra.
Qed.

Lemma qltb_of_le (a b : Q) : (b <= a)%Q -> PyFloat.ltb a b = false.
Proof.
  intros H. unfold PyFloat.ltb. apply negb_false_iff.
  apply Qle_bool_iff. exact H.
Qed.

Section TurnNodes.
Context {vec score : Type}.
Variable score_lt : score -> score -> bool.
Variable C : Collab vec score.
Variable classify : string -> Classified.

(** A call of [ensure_pack_for_decision] run to completion takes a
    reachable configuration to a reachable one. *)
Lemma ensure_pack_reachable (c : Config) (d : TopicDecision) (lg : string) :
  reachable score_lt C c ->
  reachable score_lt C
    {| world := fst (ensure_pack_for_decision C d lg (world c));
       suspended := suspended c |}.
Proof.
  intros Hc. unfold reachable in *.
  destruct (_packs (world c) !! decision_key d lg) as [m|] eqn:E.
  - eapply rtc_r; [exact Hc|]. apply step_ensure_hit. rewrite E. eauto.
  - eapply rtc_r; [eapply rtc_r; [exact Hc|]|].
    + apply (step_ensure_begin score_lt C c d lg E).
    + unfold ensure_pack_for_decision. rewrite E.
      apply (step_ensure_resume score_lt C
               {| world := ensure_begin d lg (world c);
                  suspended := (d, lg) :: suspended c |}
               [] d lg (suspended c)).
      reflexivity.
Qed.

Lemma reachable_entry_aligned (c : Config) (key : string) :
  encode_contract C -> reachable score_lt C c ->
  length (meta (pack_entry key (world c))) =
  length (index (pack_entry key (world c))).
Proof.
  intros He Hc.
  assert (Ha : all_packs (fun p => length (index p) = length (meta p)) (world c)).
  { apply (all_packs_reachable score_lt C); [reflexivity| |exact Hc].
    intros p docs Hp _. simpl. rewrite !length_app, He, length_map, Hp.
    reflexivity. }
  unfold pack_entry.
  destruct (_pack_indexes (world c) !! key) eqn:E; simpl;
    [symmetry; apply (Ha _ _ E)|reflexivity].
Qed.

(** Sizes of what a retrieval returns. *)
Lemma retrieve_lengths (pack_key query : string) (k : Z) (w : World vec)
    (ctx : list ContextItem) (cits : list (Citation score)) :
  0 <= k ->
  snd (retrieve_from_pack score_lt C pack_key query k w) = Ok (ctx, cits) ->
  (Z.of_nat (length ctx) <= k) /\ (length cits <= 4)%nat /\
  (length cits <= length ctx)%nat /\ (cits = [] -> ctx = []).
Proof.
  intros Hk Hret.
  destruct (Z.eq_dec (ntotal (pack_entry pack_key w)) 0) as [Hn|Hn].
  - rewrite (retrieve_short_circuit score_lt C _ _ _ _ Hn) in Hret.
    simpl in Hret. injection Hret as <- <-. simpl. repeat split; auto; lia.
  - rewrite (retrieve_unfold score_lt C _ _ _ _ Hn) in Hret. cbv zeta in Hret.
    destruct (recall_candidates C pack_key query k w) as [cands|];
      simpl in Hret; [|discriminate].
    injection Hret as <- <-.
    set (hits := map hit_of (Py.slice_to k _)).
    assert (Hlen : Z.of_nat (length hits) <= k).
    { unfold hits. rewrite length_map. apply slice_to_length, Hk. }
    rewrite (slice_to_nonneg 4) by lia. change (Z.to_nat 4) with 4%nat.
    rewrite !length_map, length_firstn.
    split; [exact Hlen|]. split; [lia|]. split; [lia|].
    destruct hits as [|h hits]; [reflexivity|]. simpl. discriminate.
Qed.

(** X17: [plan] records the decision of the classifier.  Without
    candidate sources, or with a confidence below the float 0.35, it sets
    the mode
    ["clarify"] and leaves the world and the pack key untouched; otherwise
    it runs [ensure_pack_for_decision] for language ["en"], sets the mode
    ["grounded"] and the pack key, and that key has a manifest. *)
Theorem plan_outcome (state : TurnState score) (w : World vec) :
  ts_decision (snd (Graph.plan C classify state w)) =
    Some (classify (ts_user_msg state)) /\
  (decision_candidate_sources (topic (classify (ts_user_msg state))) = [] \/
   (confidence (classify (ts_user_msg state)) < Graph.confidence_threshold)%Q ->
   fst (Graph.plan C classify state w) = w /\
   ts_mode (snd (Graph.plan C classify state w)) = "clarify" /\
   ts_pack_key (snd (Graph.plan C classify state w)) = ts_pack_key state) /\
  (decision_candidate_sources (topic (classify (ts_user_msg state))) <> [] ->
   (Graph.confidence_threshold <= confidence (classify (ts_user_msg state)))%Q ->
   fst (Graph.plan C classify state w) =
     fst (ensure_pack_for_decision C (topic (classify (ts_user_msg state)))
            "en" w) /\
   ts_mode (snd (Graph.plan C classify state w)) = "grounded" /\
   ts_pack_key (snd (Graph.plan C classify state w)) =
     Some (decision_key (topic (classify (ts_user_msg state))) "en") /\
   is_Some (_packs (fst (Graph.plan C classify state w))
              !! decision_key (topic (classify (ts_user_msg state))) "en")).
Proof.
  unfold Graph.plan.
  set (d := classify (ts_user_msg state)).
  pose proof (ensure_pack_key C (topic d) "en" w) as Hkey.
  pose proof (ensure_pack_registers C (topic d) "en" w) as Hreg.
  destruct (decision_candidate_sources (topic d)) as [|s srcs] eqn:Es.
  { split; [reflexivity|]. split; [intros _; auto|].
    intros Hne. contradiction. }
  destruct (PyFloat.ltb (confidence d) Graph.confidence_threshold) eqn:El.
  { split; [reflexivity|]. split; [intros _; auto|].
    intros _ Hle. apply qltb_true in El. lra. }
  destruct (ensure_pack_for_decision C (topic d) "en" w) as [w1 [key st]].
  simpl in Hkey, Hreg. subst key. simpl.
  split; [reflexivity|]. split.
  - intros [H|H]; [discriminate|]. apply qltb_false in El. lra.
  - intros _ _. auto.
Qed.

(** X18: from a reachable configuration, with an embedder and an index
    search that honour their contracts, and whenever the collaborators
    return (the classifier, the HTTP client, the embedder, the index
    search and the reranker are total in this model: an exception of
    theirs is outside it), the [plan] and [retrieve] nodes of a turn raise
    no [IndexError] of their own, every label answered by the search
    being a subscript of [meta].  They end in mode ["clarify"], or in mode
    ["grounded"] with at least one and at most 4 citations, at most 20
    context items and no more citations than context items, for a pack key
    that has a manifest. *)
Theorem run_turn_nodes_outcome (user_msg : string) (c : Config) :
  encode_contract C -> search_contract C ->
  reachable score_lt C c ->
  exists st,
    snd (Graph.run_turn_nodes score_lt C classify user_msg (world c)) = Ok st /\
    ts_user_msg st = user_msg /\
    (ts_mode st = "clarify" \/
     (ts_mode st = "grounded" /\
      ts_citations st <> [] /\
      (length (ts_citations st) <= 4)%nat /\
      (length (ts_context st) <= 20)%nat /\
      (length (ts_citations st) <= length (ts_context st))%nat /\
      exists key,
        ts_pack_key st = Some key /\
        is_Some (_packs (fst (Graph.run_turn_nodes score_lt C classify
                                user_msg (world c))) !! key))).
Proof.
  intros He Hs Hc. unfold Graph.run_turn_nodes, Graph.plan.
  set (d := classify (ts_user_msg (Graph.new_state user_msg))).
  destruct (decision_candidate_sources (topic d)) as [|s srcs] eqn:Es.
  { simpl. eexists. split; [reflexivity|]. split; [reflexivity|]. left.
    reflexivity. }
  destruct (PyFloat.ltb (confidence d) Graph.confidence_threshold) eqn:El.
  { simpl. eexists. split; [reflexivity|]. split; [reflexivity|]. left.
    reflexivity. }
  pose proof (ensure_pack_key C (topic d) "en" (world c)) as Hkey.
  pose proof (ensure_pack_registers C (topic d) "en" (world c)) as Hreg.
  pose proof (ensure_pack_reachable c (topic d) "en" Hc) as Hc1.
  destruct (ensure_pack_for_decision C (topic d) "en" (world c))
    as [w1 [key status]].
  simpl in Hkey, Hreg, Hc1. subst key.
  unfold Graph.retrieve, Graph.no_pack_key. cbn -[retrieve_from_pack decision_key].
  assert (Hne : String.eqb (decision_key (topic d) "en") "" = false).
  { apply String.eqb_neq. apply decision_key_nonempty. }
  rewrite Hne. cbn -[retrieve_from_pack decision_key].
  destruct (retrieve_returns score_lt C (decision_key (topic d) "en")
              user_msg 20 w1 Hs) as (ctx & cits & Hr).
  { apply (reachable_entry_aligned
             {| world := w1; suspended := suspended c |}); assumption. }
  pose proof (retrieve_frame score_lt C (decision_key (topic d) "en")
                user_msg 20 w1) as [Hp _].
  assert (H20 : 0 <= 20) by lia.
  pose proof (retrieve_lengths (decision_key (topic d) "en") user_msg 20 w1
                ctx cits H20 Hr) as (L1 & L2 & L3 & L4).
  destruct (retrieve_from_pack score_lt C (decision_key (topic d) "en")
              user_msg 20 w1) as [w2 r].
  simpl in Hr, Hp. subst r.
  destruct cits as [|ct cits].
  - eexists. split; [reflexivity|]. split; [reflexivity|]. left. reflexivity.
  - eexists. split; [reflexivity|]. split; [reflexivity|]. right.
    cbn. split; [reflexivity|]. split; [discriminate|].
    split; [exact L2|]. split; [lia|]. split; [exact L3|].
    exists (decision_key (topic d) "en"). split; [reflexivity|].
    rewrite Hp. exact Hreg.
Qed.

End TurnNodes.

(** ** Retrieval returns documents of the pack; ingestion has a fetch budget *)

Lemma py_index_In {A} (l : list A) (i : Z) (x : A) :
  Py.index l i = Some x -> In x l.
Proof.
  unfold Py.index.
  destruct ((0 <=? i) && (i <? Z.of_nat (length l)));
    [apply nth_error_In|].
  destruct ((- Z.of_nat (length l) <=? i) && (i <? 0));
    [apply nth_error_In|discriminate].
Qed.

Section Grounding.
Context {vec score : Type}.
Variable score_lt : score -> score -> bool.
Variable C : Collab vec score.

(** X19: every context item and every citation that
    [retrieve_from_pack] returns is made from a document stored in the
    metadata of the pack it was asked about. *)
Theorem retrieve_returns_pack_documents
    (pack_key query : string) (k : Z) (w : World vec)
    (ctx : list ContextItem) (cits : list (Citation score)) :
  snd (retrieve_from_pack score_lt C pack_key query k w) = Ok (ctx, cits) ->
  (forall item, In item ctx ->
     exists d, In d (meta (pack_entry pack_key w)) /\
               ctx_text item = text d /\ ctx_url item = url d /\
               ctx_title item = title d) /\
  (forall cit, In cit cits ->
     exists d, In d (meta (pack_entry pack_key w)) /\
               cit_url cit = url d /\ cit_title cit = title d).
Proof.
  intros Hret.
  destruct (Z.eq_dec (ntotal (pack_entry pack_key w)) 0) as [Hn|Hn].
  { rewrite (retrieve_short_circuit score_lt C _ _ _ _ Hn) in Hret.
    simpl in Hret. injection Hret as <- <-. split; intros x []. }
  rewrite (retrieve_unfold score_lt C _ _ _ _ Hn) in Hret. cbv zeta in Hret.
  destruct (recall_candidates C pack_key query k w) as [cands|] eqn:Hc;
    simpl in Hret; [|discriminate].
  injection Hret as <- <-.
  assert (Hcands : forall c, In c cands -> In c (meta (pack_entry pack_key w))).
  { unfold recall_candidates in Hc. apply mapM_Some_1 in Hc.
    induction Hc as [|i c' labels cands' Hi _ IH]; intros c [].
    - subst c. eapply py_index_In. exact Hi.
    - apply IH. assumption. }
  assert (Hranked : forall p,
             In p (Py.slice_to k (rank score_lt cands (rerank_scores C query cands))) ->
             In (fst p) (meta (pack_entry pack_key w))).
  { intros [c s] Hp. apply slice_to_In in Hp. unfold rank in Hp.
    apply (Permutation_in _ (sorted_permutation score_lt snd true _)) in Hp.
    apply in_combine_l in Hp. apply Hcands, Hp. }
  split.
  - intros item Hitem. apply in_map_iff in Hitem as (h & <- & Hh).
    apply in_map_iff in Hh as (p & <- & Hp).
    exists (fst p). split; [apply Hranked, Hp|]. auto.
  - intros cit Hcit. apply in_map_iff in Hcit as (h & <- & Hh).
    apply slice_to_In in Hh. apply in_map_iff in Hh as (p & <- & Hp).
    exists (fst p). split; [apply Hranked, Hp|]. auto.
Qed.

End Grounding.

Section FetchBudget.
Context {vec score : Type}.
Variable C : Collab vec score.

Lemma count_gets_app (a b : list Event) :
  count_gets (a ++ b) = (count_gets a + count_gets b)%nat.
Proof. unfold count_gets. rewrite List.filter_app, length_app. reflexivity. Qed.

Lemma fetch_docs_trace (links : list string) (w : World vec) :
  exists evs,
    trace (fst (fetch_docs C links w)) = (trace w ++ evs)%list /\
    fetch_or_encode evs /\ count_gets evs = length links.
Proof.
  revert w. induction links as [|u rest IH]; intros w; simpl.
  { exists []. rewrite app_nil_r. repeat split. constructor. }
  destruct (IH (log_event (EvGet u) w)) as (evs & Ht & Hf & Hc).
  exists (EvGet u :: evs). simpl in Ht. rewrite <- app_assoc in Ht.
  destruct (client_get C u) as [html|].
  - destruct (fetch_docs C rest (log_event (EvGet u) w)) as [w' docs].
    simpl in *. split; [exact Ht|]. split; [constructor; [exact I|exact Hf]|].
    unfold count_gets in *. simpl. rewrite Hc. reflexivity.
  - split; [exact Ht|]. split; [constructor; [exact I|exact Hf]|].
    unfold count_gets in *. simpl. rewrite Hc. reflexivity.
Qed.

Lemma upsert_trace (pack_key : string) (docs : list Doc) (w : World vec) :
  trace (upsert_documents C pack_key docs w) =
  (trace w ++ [EvEncode (map (fun d => ("passage: " ++ text d)%string) docs)])%list.
Proof.
  unfold upsert_documents. simpl.
  destruct (ensure_index_frame pack_key w) as (_ & _ & _ & ->). reflexivity.
Qed.

Lemma ingest_sources_trace (pack_key : string) (srcs subs : list string)
    (limit total : Z) (all_urls : list string) (w : World vec) :
  0 <= limit ->
  exists evs,
    trace (fst (ingest_sources C pack_key srcs subs limit total all_urls w)) =
      (trace w ++ evs)%list /\
    fetch_or_encode evs /\
    Z.of_nat (count_gets evs) <= Z.of_nat (length srcs) * (1 + limit).
Proof.
  intros Hl. revert total all_urls w.
  induction srcs as [|base rest IH]; intros total all_urls w.
  { exists []. simpl. rewrite app_nil_r. repeat split; [constructor|].
    unfold count_gets. simpl. lia. }
  cbn [ingest_sources].
  pose proof (candidate_links_length C base subs limit w) as Hlen.
  assert (Ht1 : trace (fst (_candidate_links C base subs limit w)) =
                (trace w ++ [EvGet base])%list).
  { rewrite candidate_links_world. reflexivity. }
  destruct (_candidate_links C base subs limit w) as [w1 [links|]];
    cbn [fst snd] in Ht1, Hlen.
  - specialize (Hlen links Hl eq_refl).
    destruct (fetch_docs_trace links w1) as (e2 & Ht2 & Hf2 & Hc2).
    destruct (fetch_docs C links w1) as [w2 docs]. cbn [fst] in Ht2.
    destruct docs as [|d docs].
    + destruct (IH total (all_urls ++ links)%list w2) as (e3 & Ht3 & Hf3 & Hc3).
      exists (EvGet base :: e2 ++ e3)%list.
      rewrite Ht3, Ht2, Ht1, <- !app_assoc.
      split; [reflexivity|].
      split; [constructor; [exact I|apply Forall_app; auto]|].
      change (EvGet base :: e2 ++ e3)%list with ([EvGet base] ++ e2 ++ e3)%list.
      rewrite !count_gets_app, Hc2. unfold count_gets at 1. simpl length.
      rewrite ?length_cons, ?Nat2Z.inj_succ. nia.
    + destruct (IH (total + Z.of_nat (length (d :: docs)))
                   (all_urls ++ links)%list
                   (upsert_documents C pack_key (d :: docs) w2))
        as (e3 & Ht3 & Hf3 & Hc3).
      exists (EvGet base :: e2 ++
              EvEncode (map (fun d => ("passage: " ++ text d)%string) (d :: docs)) :: e3)%list.
      rewrite Ht3, upsert_trace, Ht2, Ht1, <- !app_assoc.
      split; [reflexivity|].
      split; [constructor; [exact I|apply Forall_app; split; [exact Hf2|];
                                    constructor; [exact I|exact Hf3]]|].
      change (EvGet base :: e2 ++
              EvEncode (map (fun d => ("passage: " ++ text d)%string) (d :: docs)) :: e3)%list
        with ([EvGet base] ++ e2 ++
              [EvEncode (map (fun d => ("passage: " ++ text d)%string) (d :: docs))] ++ e3)%list.
      rewrite !count_gets_app, Hc2. unfold count_gets at 1 2. simpl length.
      rewrite ?length_cons, ?Nat2Z.inj_succ. nia.
  - destruct (IH total all_urls w1) as (e3 & Ht3 & Hf3 & Hc3).
    exists (EvGet base :: e3). rewrite Ht3, Ht1, <- app_assoc.
    split; [reflexivity|]. split; [constructor; [exact I|exact Hf3]|].
    change (EvGet base :: e3) with ([EvGet base] ++ e3)%list.
    rewrite count_gets_app. unfold count_gets at 1. simpl length.
    rewrite ?length_cons, ?Nat2Z.inj_succ. nia.
Qed.

(** X20: with a page cap [limit >= 0], a run of [ingest_stage_a] only
    fetches pages and embeds texts (it never searches or reranks), and it
    fetches at most [1 + limit] pages per source: the base page for its
    links, then each candidate. *)
Theorem ingest_fetch_budget (pack_key : string) (srcs subs : list string)
    (limit : Z) (w : World vec) :
  0 <= limit ->
  exists evs,
    trace (fst (ingest_stage_a C pack_key srcs subs limit w)) =
      (trace w ++ evs)%list /\
    fetch_or_encode evs /\
    Z.of_nat (count_gets evs) <= Z.of_nat (length srcs) * (1 + limit).
Proof.
  intros Hl. unfold ingest_stage_a. destruct srcs as [|s srcs].
  { exists []. simpl. rewrite app_nil_r. repeat split; [constructor|].
    unfold count_gets. simpl. lia. }
  destruct (ingest_sources_trace pack_key (s :: srcs) subs limit 0 [] w Hl)
    as (evs & Ht & Hf & Hc).
  destruct (ingest_sources C pack_key (s :: srcs) subs limit 0 [] w)
    as [w' [total all_urls]].
  exists evs. auto.
Qed.

End FetchBudget.

(** ** The further properties on the examples *)

Lemma demo_encode_contract : encode_contract Demo.collab.
Proof. intros texts. simpl. apply length_map. Qed.

Lemma demo_started_manifest :
  _packs (world (Demo.started Demo.guide)) !! decision_key Demo.guide "en" =
  Some (built_manifest Demo.guide "en" 0).
Proof.
  unfold Demo.started. cbn [world]. rewrite ensure_begin_packs.
  apply lookup_insert_eq.
Qed.

Lemma demo_built_manifest :
  _packs (world (Demo.built Demo.guide)) !! decision_key Demo.guide "en" =
  Some (built_manifest Demo.guide "en" 3).
Proof. vm_compute. reflexivity. Qed.

Lemma demo_started_step :
  step Z.ltb Demo.collab (Demo.started Demo.guide) (Demo.built Demo.guide).
Proof.
  apply (step_ensure_resume Z.ltb Demo.collab (Demo.started Demo.guide)
           [] Demo.guide "en" []).
  reflexivity.
Qed.

Lemma demo_after_guide_listed :
  forall key, In key [decision_key Demo.guide "en"] ->
              is_Some (_packs Demo.after_guide !! key).
Proof.
  intros key [<-|[]].
  apply (ensure_pack_registers Demo.collab Demo.guide "en" init_world).
Qed.

Lemma demo_ten_result :
  snd (retrieve_from_pack Z.ltb Demo.collab "k" "ingress" 5
         (Demo.world_with Demo.ten_docs)) =
  Ok (Scenario.ten_context, Scenario.ten_citations).
Proof. vm_compute. reflexivity. Qed.

Lemma ensure_pack_new_key_witness :
  snd (ensure_pack_for_decision Demo.collab Demo.guide "en" init_world) =
    (decision_key Demo.guide "en",
     if sync_count Demo.collab Demo.guide "en" init_world =? 0
     then "building" else "ready") /\
  _packs (fst (ensure_pack_for_decision Demo.collab Demo.guide "en" init_world))
    !! decision_key Demo.guide "en" =
    Some (built_manifest Demo.guide "en"
            (sync_count Demo.collab Demo.guide "en" init_world)).
Proof.
  pose proof (ensure_pack_new_key Demo.collab Demo.guide "en" init_world
                (lookup_empty _)) as (H1 & H2 & _).
  exact (conj H1 H2).
Defined.

Lemma ensure_pack_reordered_hit_witness :
  ensure_pack_for_decision Demo.collab Scenario.two_sources_swapped "en"
    (fst (ensure_pack_for_decision Demo.collab Scenario.two_sources "en"
            init_world)) =
  (fst (ensure_pack_for_decision Demo.collab Scenario.two_sources "en"
          init_world),
   (decision_key Scenario.two_sources "en", "ready")).
Proof.
  apply (ensure_pack_reordered_hit Demo.collab Scenario.two_sources
           Scenario.two_sources_swapped "en" init_world).
  - reflexivity.
  - reflexivity.
  - apply perm_swap.
Defined.

Lemma ensure_pack_without_sources_witness :
  ensure_pack_for_decision Demo.collab Scenario.unsourced "en" init_world =
  ({| _packs := <[decision_key Scenario.unsourced "en" :=
                    built_manifest Scenario.unsourced "en" 0]>
                  (_packs (@init_world Z));
      _ingest_log := _ingest_log (@init_world Z);
      _pack_indexes := _pack_indexes (@init_world Z);
      tasks := (tasks (@init_world Z) ++
                [enrichment_task Scenario.unsourced "en"])%list;
      trace := trace (@init_world Z) |},
   (decision_key Scenario.unsourced "en", "building")).
Proof.
  exact (ensure_pack_without_sources Demo.collab Scenario.unsourced "en"
           init_world eq_refl (lookup_empty _)).
Defined.

Lemma ingest_count_capped_witness :
  0 <= fst (snd (ingest_stage_a Demo.collab "k"
                   ["https://docs.example.com/guide/"] ["Ingress"] 2
                   init_world))
    <= 2 * Z.of_nat (length ["https://docs.example.com/guide/"]).
Proof.
  assert (H : 0 <= 2) by lia.
  exact (ingest_count_capped Demo.collab "k"
           ["https://docs.example.com/guide/"] ["Ingress"] 2 init_world H).
Defined.

Lemma reachable_packs_aligned_witness :
  aligned (world (Demo.built Demo.guide)).
Proof.
  exact (proj1 (reachable_packs_aligned Z.ltb Demo.collab
                  (Demo.built Demo.guide) demo_encode_contract
                  demo_search_contract (demo_built_reachable Demo.guide))).
Defined.

Lemma reachable_texts_bounded_witness :
  texts_bounded (world (Demo.built Demo.guide)).
Proof.
  exact (reachable_texts_bounded Z.ltb Demo.collab (Demo.built Demo.guide)
           (demo_built_reachable Demo.guide)).
Defined.

Lemma reachable_logs_bounded_witness :
  logs_bounded (world (Demo.built Demo.guide)).
Proof.
  exact (reachable_logs_bounded Z.ltb Demo.collab (Demo.built Demo.guide)
           (demo_built_reachable Demo.guide)).
Defined.

Lemma reachable_completeness_values_witness :
  completeness (built_manifest Demo.guide "en" 3) = 0%Q \/
  completeness (built_manifest Demo.guide "en" 3) = 0.3%Q \/
  completeness (built_manifest Demo.guide "en" 3) = 0.6%Q.
Proof.
  exact (reachable_completeness_values Z.ltb Demo.collab
           (Demo.built Demo.guide) (demo_built_reachable Demo.guide)
           (decision_key Demo.guide "en") (built_manifest Demo.guide "en" 3)
           demo_built_manifest).
Defined.

Lemma step_keeps_manifest_fields_witness :
  exists m',
    _packs (world (Demo.built Demo.guide)) !! decision_key Demo.guide "en" =
      Some m' /\
    tech m' = tech (built_manifest Demo.guide "en" 0) /\
    version m' = version (built_manifest Demo.guide "en" 0) /\
    lang m' = lang (built_manifest Demo.guide "en" 0) /\
    sources m' = sources (built_manifest Demo.guide "en" 0) /\
    ttl_days m' = ttl_days (built_manifest Demo.guide "en" 0).
Proof.
  exact (step_keeps_manifest_fields Z.ltb Demo.collab
           (Demo.started Demo.guide) (Demo.built Demo.guide)
           (decision_key Demo.guide "en") (built_manifest Demo.guide "en" 0)
           demo_started_step demo_started_manifest).
Defined.

Lemma upsert_then_retrieve_single_witness :
  exists s,
    rerank_scores Demo.collab "ingress" [Demo.doc 3] = [s] /\
    snd (retrieve_from_pack Z.ltb Demo.collab "k" "ingress" 5
           (upsert_documents Demo.collab "k" [Demo.doc 3] init_world)) =
      Ok ([context_of (hit_of (Demo.doc 3, s))],
          [citation_of (hit_of (Demo.doc 3, s))]).
Proof.
  assert (H : 0 < 5) by lia.
  exact (upsert_then_retrieve_single Z.ltb Demo.collab "k" "ingress" 5
           (Demo.doc 3) init_world demo_encode_contract demo_search_contract
           demo_predict_contract eq_refl H).
Defined.

Lemma pack_summaries_report_witness :
  map sum_key (snd (pack_summaries [decision_key Demo.guide "en"]
                      Demo.after_guide)) =
  [decision_key Demo.guide "en"].
Proof.
  exact (proj1 (pack_summaries_report [decision_key Demo.guide "en"]
                  Demo.after_guide demo_after_guide_listed)).
Defined.

Lemma run_turn_nodes_outcome_witness :
  exists st,
    snd (Graph.run_turn_nodes Z.ltb Demo.collab Scenario.classify
           "How do I set up an ingress?" (world (Demo.built Demo.guide))) =
      Ok st /\
    ts_user_msg st = "How do I set up an ingress?" /\
    (ts_mode st = "clarify" \/
     (ts_mode st = "grounded" /\
      ts_citations st <> [] /\
      (length (ts_citations st) <= 4)%nat /\
      (length (ts_context st) <= 20)%nat /\
      (length (ts_citations st) <= length (ts_context st))%nat /\
      exists key,
        ts_pack_key st = Some key /\
        is_Some (_packs (fst (Graph.run_turn_nodes Z.ltb Demo.collab
                                Scenario.classify "How do I set up an ingress?"
                                (world (Demo.built Demo.guide)))) !! key))).
Proof.
  exact (run_turn_nodes_outcome Z.ltb Demo.collab Scenario.classify
           "How do I set up an ingress?" (Demo.built Demo.guide)
           demo_encode_contract demo_search_contract
           (demo_built_reachable Demo.guide)).
Defined.

(** On the example the turn ends grounded, with three citations. *)
Example run_turn_nodes_demo :
  match snd (Graph.run_turn_nodes Z.ltb Demo.collab Scenario.classify
               "How do I set up an ingress?" (world (Demo.built Demo.guide)))
  with
  | Ok st => ts_mode st = "grounded" /\ length (ts_citations st) = 3%nat
  | Raise _ => False
  end.
Proof. vm_compute. split; reflexivity. Qed.

Lemma retrieve_returns_pack_documents_witness :
  Forall (fun item =>
            exists d,
              In d (meta (pack_entry "k" (Demo.world_with Demo.ten_docs))) /\
              ctx_text item = text d /\ ctx_url item = url d /\
              ctx_title item = title d)
         Scenario.ten_context.
Proof.
  apply List.Forall_forall.
  exact (proj1 (retrieve_returns_pack_documents Z.ltb Demo.collab "k"
                  "ingress" 5 (Demo.world_with Demo.ten_docs)
                  Scenario.ten_context Scenario.ten_citations
                  demo_ten_result)).
Defined.

Lemma ingest_fetch_budget_witness :
  exists evs,
    trace (fst (ingest_stage_a Demo.collab "k"
                  ["https://docs.example.com/guide/"] ["Ingress"] 2
                  init_world)) =
      (trace (@init_world Z) ++ evs)%list /\
    fetch_or_encode evs /\
    Z.of_nat (count_gets evs) <=
      Z.of_nat (length ["https://docs.example.com/guide/"]) * (1 + 2).
Proof.
  assert (H : 0 <= 2) by lia.
  exact (ingest_fetch_budget Demo.collab "k"
           ["https://docs.example.com/guide/"] ["Ingress"] 2 init_world H).
Defined.

(** ** Ingestion when no source can be fetched *)

Section FetchFailures.
Context {vec score : Type}.
Variable C : Collab vec score.

Lemma ingest_sources_all_fail (pack_key : string) (srcs subs : list string)
    (limit total : Z) (all_urls : list string) (w : World vec) :
  Forall (fun s => client_get C s = None) srcs ->
  ingest_sources C pack_key srcs subs limit total all_urls w =
  ({| _packs := _packs w; _ingest_log := _ingest_log w;
      _pack_indexes := _pack_indexes w; tasks := tasks w;
      trace := (trace w ++ map EvGet srcs)%list |},
   (total, all_urls)).
Proof.
  intros Hall. revert w.
  induction Hall as [|s srcs Hs _ IH]; intros w; simpl.
  - rewrite app_nil_r. destruct w; reflexivity.
  - unfold _candidate_links, _fetch. rewrite Hs. rewrite IH. simpl.
    rewrite <- app_assoc. reflexivity.
Qed.

(** X21: when the base page of every source fails to load, the run does
    not raise: it returns the count 0 and no URL, ingests nothing (the
    manifests, the logs, the indexes and the tasks are as before) and has
    made exactly one fetch per source, in order. *)
Theorem ingest_all_fetches_fail (pack_key : string) (srcs subs : list string)
    (limit : Z) (w : World vec) :
  Forall (fun s => client_get C s = None) srcs ->
  ingest_stage_a C pack_key srcs subs limit w =
  ({| _packs := _packs w; _ingest_log := _ingest_log w;
      _pack_indexes := _pack_indexes w; tasks := tasks w;
      trace := (trace w ++ map EvGet srcs)%list |},
   (0, [])).
Proof.
  intros Hall. unfold ingest_stage_a. destruct srcs as [|s srcs].
  - simpl. rewrite app_nil_r. destruct w; reflexivity.
  - rewrite (ingest_sources_all_fail pack_key (s :: srcs) subs limit 0 [] w Hall).
    reflexivity.
Qed.

End FetchFailures.

Lemma demo_offline_fails :
  Forall (fun s => client_get Demo.collab s = None)
         ["https://offline.example.net/docs/"; "https://offline.example.net/api/"].
Proof. repeat constructor. Qed.

Lemma ingest_all_fetches_fail_witness :
  ingest_stage_a Demo.collab "k"
    ["https://offline.example.net/docs/"; "https://offline.example.net/api/"]
    ["Ingress"] 15 init_world =
  ({| _packs := _packs (@init_world Z);
      _ingest_log := _ingest_log (@init_world Z);
      _pack_indexes := _pack_indexes (@init_world Z);
      tasks := tasks (@init_world Z);
      trace := (trace (@init_world Z) ++
                map EvGet ["https://offline.example.net/docs/";
                           "https://offline.example.net/api/"])%list |},
   (0, [])).
Proof.
  exact (ingest_all_fetches_fail Demo.collab "k"
           ["https://offline.example.net/docs/"; "https://offline.example.net/api/"]
           ["Ingress"] 15 init_world demo_offline_fails).
Defined.
